(** * Black-hole simulation: the frame loop of [main.py]

    A shallow embedding of the program's frame loop (camera input, physics
    update, view update, render pass) and of the start-up sequence of [main],
    followed by the properties of the specification that concern them.

    The numeric code of [main.py] runs on IEEE-754 binary64 values (numpy's
    float64).  The embedding is written once over an interface [Scalar] of
    the arithmetic the program uses, and is instantiated twice:

    - at [float], Rocq's primitive binary64 numbers, whose operations are
      the correctly rounded ones numpy performs: this instance is the
      program as it executes, and every concrete run below is evaluated in
      it.  Two library calls are not fixed to the last bit by their
      documentation, the sum inside [np.linalg.norm] and the power
      [r**2]; they are exact, and the instance agrees with numpy bit for
      bit, at positions with integer coordinates at an integer distance
      and at positions on an axis;
    - at [R], exact real arithmetic, for the algebraic laws the
      specification states without rounding (inverse-square law, exact
      displacements). *)

From Stdlib Require Import List String Bool ZArith Lia.
From Stdlib Require Import Floats.
From Stdlib Require Import Reals Lra.
From Stdlib Require Import Permutation.
Import ListNotations.

Set Implicit Arguments.
Set Warnings "-inexact-float".

(** ** Scalar arithmetic *)

(** The operations and the numeric literals that occur in [main.py].  Each
    literal is a field, so that an instance decides how the decimal text is
    read (rounded to the nearest binary64 number, or taken exactly). *)
Class Scalar (T : Type) : Type := {
  sadd : T -> T -> T;
  ssub : T -> T -> T;
  smul : T -> T -> T;
  sdiv : T -> T -> T;
  sneg : T -> T;
  ssqrt : T -> T;
  lit_0 : T;          (* 0.0 *)
  lit_1 : T;          (* 1.0 *)
  lit_0_5 : T;        (* 0.5 *)
  lit_0_01 : T;       (* 0.01 *)
  lit_0_1 : T;        (* 0.1 *)
  lit_0_15 : T;       (* 0.15 *)
  lit_10 : T;         (* 10.0 *)
  lit_20 : T;         (* 20.0 *)
  lit_45 : T;         (* 45.0 *)
  lit_100 : T;        (* 100.0 *)
  lit_600 : T;        (* 600 *)
  lit_800 : T;        (* 800 *)
  lit_6_67430e_11 : T; (* 6.67430e-11 *)
  lit_1e30 : T;       (* 1e30 *)
  lit_1e31 : T        (* 1e31 *)
}.

#[export] Instance Scalar_float : Scalar float := {|
  sadd := PrimFloat.add;
  ssub := PrimFloat.sub;
  smul := PrimFloat.mul;
  sdiv := PrimFloat.div;
  sneg := PrimFloat.opp;
  ssqrt := PrimFloat.sqrt;
  lit_0 := 0.0%float;
  lit_1 := 1.0%float;
  lit_0_5 := 0.5%float;
  lit_0_01 := 0.01%float;
  lit_0_1 := 0.1%float;
  lit_0_15 := 0.15%float;
  lit_10 := 10.0%float;
  lit_20 := 20.0%float;
  lit_45 := 45.0%float;
  lit_100 := 100.0%float;
  lit_600 := 600%float;
  lit_800 := 800%float;
  lit_6_67430e_11 := 6.67430e-11%float;
  lit_1e30 := 1e30%float;
  lit_1e31 := 1e31%float
|}.

#[export] Instance Scalar_R : Scalar R := {|
  sadd := Rplus;
  ssub := Rminus;
  smul := Rmult;
  sdiv := Rdiv;
  sneg := Ropp;
  ssqrt := sqrt;
  lit_0 := 0%R;
  lit_1 := 1%R;
  lit_0_5 := 0.5%R;
  lit_0_01 := 0.01%R;
  lit_0_1 := 0.1%R;
  lit_0_15 := 0.15%R;
  lit_10 := 10%R;
  lit_20 := 20%R;
  lit_45 := 45%R;
  lit_100 := 100%R;
  lit_600 := 600%R;
  lit_800 := 800%R;
  lit_6_67430e_11 := 6.67430e-11%R;
  lit_1e30 := 1e30%R;
  lit_1e31 := 1e31%R
|}.

(** ** Vectors *)

(** A numpy array of shape (3,) or a pyrr [Vector3]. *)
Record vec3 (T : Type) : Type := mk3 { vx : T; vy : T; vz : T }.

Arguments mk3 {T} _ _ _.

Section Vectors.
Context {T : Type} `{Scalar T}.

(** [a + b], elementwise. *)
Definition vadd (a b : vec3 T) : vec3 T :=
  mk3 (sadd (vx a) (vx b)) (sadd (vy a) (vy b)) (sadd (vz a) (vz b)).

(** [a - b], elementwise. *)
Definition vsub (a b : vec3 T) : vec3 T :=
  mk3 (ssub (vx a) (vx b)) (ssub (vy a) (vy b)) (ssub (vz a) (vz b)).

(** [a * k], array times scalar. *)
Definition vmul_s (a : vec3 T) (k : T) : vec3 T :=
  mk3 (smul (vx a) k) (smul (vy a) k) (smul (vz a) k).

(** [k * a], scalar times array. *)
Definition smul_v (k : T) (a : vec3 T) : vec3 T :=
  mk3 (smul k (vx a)) (smul k (vy a)) (smul k (vz a)).

(** [a / k], array divided by scalar. *)
Definition vdiv_s (a : vec3 T) (k : T) : vec3 T :=
  mk3 (sdiv (vx a) k) (sdiv (vy a) k) (sdiv (vz a) k).

(** [np.dot(a, b)] on two 3-vectors, accumulated left to right, each
    product rounded before it is added.  In binary64 numpy hands the sum
    to BLAS, which may fuse a product with an addition; both agree
    whenever the products and partial sums are exact (integer
    coordinates, a vector on an axis) and on NaN, and can differ in the
    last place otherwise. *)
Definition dot (a b : vec3 T) : T :=
  sadd (sadd (smul (vx a) (vx b)) (smul (vy a) (vy b))) (smul (vz a) (vz b)).

(** [np.linalg.norm(a)] for a real 1-D array: [sqrt(a.dot(a))]. *)
Definition norm (a : vec3 T) : T := ssqrt (dot a a).

(** [Vector3.cross(a, b)], i.e. [np.cross(a, b)]. *)
Definition cross (a b : vec3 T) : vec3 T :=
  mk3 (ssub (smul (vy a) (vz b)) (smul (vz a) (vy b)))
      (ssub (smul (vz a) (vx b)) (smul (vx a) (vz b)))
      (ssub (smul (vx a) (vy b)) (smul (vy a) (vx b))).

(** The specification's [normalize]: a vector divided by its norm.  The
    program never calls it; it appears only in statements. *)
Definition normalize (a : vec3 T) : vec3 T := vdiv_s a (norm a).
End Vectors.

(** ** Simulation parameters (lines 47-57) *)

Section Parameters.
Context {T : Type} `{Scalar T}.

Definition g : T := lit_6_67430e_11.
Definition blackhole_mass : T := lit_1e31.
Definition star_mass : T := lit_1e30.
Definition star_pos0 : vec3 T := mk3 lit_0 lit_0 lit_10.
Definition star_vel0 : vec3 T := mk3 lit_0 lit_0 (sneg lit_0_1).

Definition camera_pos0 : vec3 T := mk3 lit_0 lit_0 lit_20.
Definition camera_front0 : vec3 T := mk3 lit_0 lit_0 (sneg lit_1).
Definition camera_up0 : vec3 T := mk3 lit_0 lit_1 lit_0.
End Parameters.

(** ** Physics update (lines 192-196) *)

(** The star's kinematic state: the arrays [star_pos] and [star_vel]. *)
Record star_state (T : Type) : Type := mk_star {
  star_pos : vec3 T;
  star_vel : vec3 T
}.

Arguments mk_star {T} _ _.

Section Physics.
Context {T : Type} `{Scalar T}.

(** [force = -g * blackhole_mass * star_mass / (r**2)].  The square
    [r**2] is taken as the product [r * r].  In binary64 numpy computes
    it with the C library's [pow]; both agree whenever [r * r] is exact
    (an integer distance, say) and can differ in the last place
    otherwise. *)
Definition force (r : T) : T :=
  sdiv (smul (smul (sneg g) blackhole_mass) star_mass) (smul r r).

(** [acc = force / star_mass * (star_pos / r)] with
    [r = np.linalg.norm(star_pos)]. *)
Definition acc (pos : vec3 T) : vec3 T :=
  let r := norm pos in
  smul_v (sdiv (force r) star_mass) (vdiv_s pos r).

(** One pass over lines 192-196: the in-place updates
    [star_vel += acc * 0.01] and then [star_pos += star_vel * 0.01]. *)
Definition physics_update (s : star_state T) : star_state T :=
  let a := acc (star_pos s) in
  let star_vel' := vadd (star_vel s) (vmul_s a lit_0_01) in
  let star_pos' := vadd (star_pos s) (vmul_s star_vel' lit_0_01) in
  mk_star star_pos' star_vel'.

(** [n] consecutive loop iterations, seen from the star. *)
Fixpoint physics_steps (n : nat) (s : star_state T) : star_state T :=
  match n with
  | O => s
  | S k => physics_steps k (physics_update s)
  end.
End Physics.

(** The specification's description of the integrator, in its own words:
    "semi-implicit Euler ... velocity-then-position:
    velocity += acceleration * dt; position += velocity * dt". *)
Definition semi_implicit_euler {T : Type} `{Scalar T}
    (accel : vec3 T -> vec3 T) (dt : T) (s : star_state T) : star_state T :=
  let velocity' := vadd (star_vel s) (vmul_s (accel (star_pos s)) dt) in
  mk_star (vadd (star_pos s) (vmul_s velocity' dt)) velocity'.

(** Forward (explicit) Euler, for contrast: the position is advanced with
    the velocity the step started from. *)
Definition explicit_euler {T : Type} `{Scalar T}
    (accel : vec3 T -> vec3 T) (dt : T) (s : star_state T) : star_state T :=
  mk_star (vadd (star_pos s) (vmul_s (star_vel s) dt))
          (vadd (star_vel s) (vmul_s (accel (star_pos s)) dt)).

(** ** Matrices (pyrr) *)

Definition row4 (T : Type) : Type := (T * T * T * T)%type.
Definition mat44 (T : Type) : Type := (row4 T * row4 T * row4 T * row4 T)%type.

Section Matrices.
Context {T : Type} `{Scalar T}.

(** [Matrix44.identity()]. *)
Definition identity : mat44 T :=
  ((lit_1, lit_0, lit_0, lit_0),
   (lit_0, lit_1, lit_0, lit_0),
   (lit_0, lit_0, lit_1, lit_0),
   (lit_0, lit_0, lit_0, lit_1)).

(** [Matrix44.from_translation(v)]: pyrr keeps the translation in the
    fourth row of an identity matrix. *)
Definition from_translation (v : vec3 T) : mat44 T :=
  ((lit_1, lit_0, lit_0, lit_0),
   (lit_0, lit_1, lit_0, lit_0),
   (lit_0, lit_0, lit_1, lit_0),
   (vx v, vy v, vz v, lit_1)).
End Matrices.

(** The two pyrr constructors whose bodies the program never looks into:
    [Matrix44.look_at(eye, target, up)] and
    [Matrix44.perspective_projection(fovy, aspect, near, far)]. *)
Class Pyrr (T : Type) : Type := {
  look_at : vec3 T -> vec3 T -> vec3 T -> mat44 T;
  perspective_projection : T -> T -> T -> T -> mat44 T
}.

(** ** Graphics operations *)

(** The five shader programs of [main]. *)
Inductive program : Type := prog_bg | prog_disk | prog_ring | prog_bh | prog_star.

(** The five vertex arrays that are rendered: the one [draw_background]
    builds, and [disk], [ring], [blackhole], [star]. *)
Inductive layer : Type := background | disk | ring | blackhole | star.

(** The calls a frame makes on the context, the programs, the vertex arrays,
    the display and the clock.  [uniform_write p name m] is
    [p[name].write(m.astype('f4').tobytes())]; every [vao_render] uses
    [moderngl.TRIANGLE_FAN]. *)
Inductive gl_op (T : Type) : Type :=
| ctx_clear (red green blue : T)
| ctx_buffer
| ctx_simple_vertex_array (p : program)
| uniform_write (p : program) (name : string) (m : mat44 T)
| vao_render (l : layer)
| display_flip
| clock_tick (fps : Z).

Arguments ctx_buffer {T}.
Arguments ctx_simple_vertex_array {T} _.
Arguments vao_render {T} _.
Arguments display_flip {T}.
Arguments clock_tick {T} _.

Definition program_eqb (p q : program) : bool :=
  match p, q with
  | prog_bg, prog_bg | prog_disk, prog_disk | prog_ring, prog_ring
  | prog_bh, prog_bh | prog_star, prog_star => true
  | _, _ => false
  end.

(** The program each vertex array was built with: [create_sphere] returns
    the pair [(vao, prog)] (lines 79-81), [draw_background] builds its
    array from the program it is given (line 11), and lines 167-168 unpack
    the disk and the ring as such pairs. *)
Definition layer_program (l : layer) : program :=
  match l with
  | background => prog_bg
  | disk => prog_disk
  | ring => prog_ring
  | blackhole => prog_bh
  | star => prog_star
  end.

(** *** Observing a sequence of operations *)

Section Observations.
Context {T : Type}.

(** The vertex arrays rendered, in order. *)
Fixpoint draws (t : list (gl_op T)) : list layer :=
  match t with
  | [] => []
  | vao_render l :: t' => l :: draws t'
  | _ :: t' => draws t'
  end.

(** The matrices written to the uniform [name], in order, each with the
    program that received it. *)
Fixpoint uploads (name : string) (t : list (gl_op T)) : list (program * mat44 T) :=
  match t with
  | [] => []
  | uniform_write p n m :: t' =>
      if String.eqb n name then (p, m) :: uploads name t' else uploads name t'
  | _ :: t' => uploads name t'
  end.

(** The uniform values held by the programs. *)
Definition uniforms : Type := program -> string -> option (mat44 T).

Definition set_uniform (u : uniforms) (p : program) (name : string) (m : mat44 T) : uniforms :=
  fun q n => if program_eqb q p && String.eqb n name then Some m else u q n.

(** What a draw call sees: the layer and the model, view and projection
    uniforms of its program at the time of the call. *)
Record drawn : Type := mk_drawn {
  drawn_layer : layer;
  drawn_model : option (mat44 T);
  drawn_view : option (mat44 T);
  drawn_proj : option (mat44 T)
}.

Fixpoint replay (u : uniforms) (t : list (gl_op T)) : list drawn :=
  match t with
  | [] => []
  | uniform_write p n m :: t' => replay (set_uniform u p n m) t'
  | vao_render l :: t' =>
      let p := layer_program l in
      mk_drawn l (u p "model"%string) (u p "view"%string) (u p "proj"%string)
        :: replay u t'
  | _ :: t' => replay u t'
  end.
End Observations.

(** ** Camera and input (lines 177-189) *)

Record camera (T : Type) : Type := mk_camera {
  camera_pos : vec3 T;
  camera_front : vec3 T;
  camera_up : vec3 T
}.

Arguments mk_camera {T} _ _ _.

Inductive key : Type := K_w | K_s | K_a | K_d | K_other (code : Z).

Inductive event : Type := QUIT | KEYDOWN (k : key) | OTHER (type : Z).

Definition is_key (k k' : key) : bool :=
  match k, k' with
  | K_w, K_w | K_s, K_s | K_a, K_a | K_d, K_d => true
  | _, _ => false
  end.

Section Camera.
Context {T : Type} `{Scalar T}.

Definition set_camera_pos (c : camera T) (p : vec3 T) : camera T :=
  mk_camera p (camera_front c) (camera_up c).

(** The four [if event.key == ...] statements of lines 182-189, in
    sequence. *)
Definition on_keydown (k : key) (c : camera T) : camera T :=
  let c1 := if is_key k K_w
            then set_camera_pos c (vadd (camera_pos c) (vmul_s (camera_front c) lit_0_5))
            else c in
  let c2 := if is_key k K_s
            then set_camera_pos c1 (vsub (camera_pos c1) (vmul_s (camera_front c1) lit_0_5))
            else c1 in
  let c3 := if is_key k K_a
            then set_camera_pos c2
                   (vsub (camera_pos c2)
                         (vmul_s (cross (camera_front c2) (camera_up c2)) lit_0_5))
            else c2 in
  if is_key k K_d
  then set_camera_pos c3
         (vadd (camera_pos c3)
               (vmul_s (cross (camera_front c3) (camera_up c3)) lit_0_5))
  else c3.

(** The body of [for event in pygame.event.get()], on the pair of the
    flag [running] and the camera. *)
Definition handle_event (st : bool * camera T) (ev : event) : bool * camera T :=
  let running' := match ev with QUIT => false | _ => fst st end in
  let cam' := match ev with KEYDOWN k => on_keydown k (snd st) | _ => snd st end in
  (running', cam').

Definition handle_events (evs : list event) (st : bool * camera T) : bool * camera T :=
  fold_left handle_event evs st.
End Camera.

(** ** The frame loop (lines 176-226) *)

(** What the loop reads and assigns: the flag [running], the camera, the
    star, and the matrices [proj] and [view]. *)
Record loop_state (T : Type) : Type := mk_loop {
  running : bool;
  cam : camera T;
  body : star_state T;
  proj : mat44 T;
  view : mat44 T
}.

Arguments mk_loop {T} _ _ _ _ _.

Section FrameLoop.
Context {T : Type} `{Scalar T} `{Pyrr T}.

(** [draw_background(ctx, prog, proj, view)], lines 2-15. *)
Definition draw_background (prog : program) (proj view : mat44 T) : list (gl_op T) :=
  [ ctx_buffer;
    ctx_simple_vertex_array prog;
    uniform_write prog "model" identity;
    uniform_write prog "view" view;
    uniform_write prog "proj" proj;
    vao_render background ].

(** Lines 201-226, with the matrices and the star position of the
    current iteration. *)
Definition render_pass (proj view : mat44 T) (star_pos : vec3 T) : list (gl_op T) :=
  [ ctx_clear lit_0_1 lit_0_1 lit_0_15 ]
  ++ draw_background prog_bg proj view
  ++ [ uniform_write prog_disk "model" identity;
       uniform_write prog_disk "view" view;
       uniform_write prog_disk "proj" proj;
       vao_render disk;
       uniform_write prog_ring "model" identity;
       uniform_write prog_ring "view" view;
       uniform_write prog_ring "proj" proj;
       vao_render ring;
       uniform_write prog_bh "model" identity;
       uniform_write prog_bh "view" view;
       uniform_write prog_bh "proj" proj;
       vao_render blackhole;
       uniform_write prog_star "model" (from_translation star_pos);
       uniform_write prog_star "view" view;
       uniform_write prog_star "proj" proj;
       vao_render star;
       display_flip;
       clock_tick 60 ].

(** The view matrix of a camera pose (lines 173 and 199). *)
Definition view_of (c : camera T) : mat44 T :=
  look_at (camera_pos c) (vadd (camera_pos c) (camera_front c)) (camera_up c).

(** One iteration of [while running], given the events that
    [pygame.event.get()] returns in it: the next state and the operations
    issued. *)
Definition frame (evs : list event) (s : loop_state T) : loop_state T * list (gl_op T) :=
  let (running', cam') := handle_events evs (running s, cam s) in
  let body' := physics_update (body s) in
  let view' := view_of cam' in
  (mk_loop running' cam' body' (proj s) view',
   render_pass (proj s) view' (star_pos body')).

(** The loop, over the event batches of the successive iterations.  It
    stops when [running] is false, or when the batches are used up. *)
Fixpoint main_loop (batches : list (list event)) (s : loop_state T)
    : loop_state T * list (gl_op T) :=
  match batches with
  | [] => (s, [])
  | evs :: rest =>
      if running s then
        let (s1, t1) := frame evs s in
        let (s2, t2) := main_loop rest s1 in
        (s2, t1 ++ t2)
      else (s, [])
  end.

(** The state in which the loop would start: the module-level values of
    lines 51-57 and the matrices of lines 172-173. *)
Definition camera0 : camera T := mk_camera camera_pos0 camera_front0 camera_up0.

Definition loop_state0 : loop_state T :=
  mk_loop true camera0 (mk_star star_pos0 star_vel0)
    (perspective_projection lit_45 (sdiv lit_800 lit_600) lit_0_1 lit_100)
    (view_of camera0).
End FrameLoop.

(** ** Start-up of [main] (lines 159-173) *)

Module Startup.

Inductive exn : Type :=
| NameError (name : string)
| UnboundLocalError (name : string)
| LibraryError (line : nat).

(** The names bound in the module's namespace once its top level has run
    (lines 1-159 and 230), in the order they are bound. *)
Definition module_globals : list string :=
  [ "draw_background"; "vertex_shader_bg"; "fragment_shader_bg";
    "np"; "moderngl"; "pygame"; "DOUBLEBUF"; "OPENGL"; "Matrix44"; "Vector3";
    "g"; "blackhole_mass"; "star_mass"; "star_pos"; "star_vel";
    "camera_pos"; "camera_front"; "camera_up";
    "init_window"; "create_sphere";
    "vertex_shader"; "fragment_shader";
    "vertex_shader_sphere"; "fragment_shader_sphere";
    "vertex_shader_disk"; "fragment_shader_disk"; "fragment_shader_ring";
    "main" ]%string.

(** The names [main] assigns somewhere in its body, which Python therefore
    treats as local to it (there is no [global] statement). *)
Definition main_locals : list string :=
  [ "ctx"; "clock"; "running"; "blackhole"; "prog_bh"; "star"; "prog_star";
    "disk"; "prog_disk"; "ring"; "prog_ring"; "prog_bg"; "proj"; "view";
    "event"; "camera_pos"; "r"; "force"; "acc"; "star_vel"; "star_pos";
    "model_star" ]%string.

Definition mem (x : string) (l : list string) : bool := existsb (String.eqb x) l.

(** A statement of the prelude: its line, the bare names it loads in
    evaluation order, whether it then calls into a library or a helper
    (which may raise), and the names it binds when it completes. *)
Record stmt : Type := mk_stmt {
  line : nat;
  loads : list string;
  calls : bool;
  stores : list string
}.

Definition prelude : list stmt :=
  [ mk_stmt 160 ["init_window"] true ["ctx"];
    mk_stmt 161 ["pygame"] true ["clock"];
    mk_stmt 162 [] false ["running"];
    mk_stmt 165 ["create_sphere"; "ctx"] true ["blackhole"; "prog_bh"];
    mk_stmt 166 ["create_sphere"; "ctx"] true ["star"; "prog_star"];
    mk_stmt 167 ["create_disk"; "ctx"] true ["disk"; "prog_disk"];
    mk_stmt 168 ["create_ring"; "ctx"] true ["ring"; "prog_ring"];
    mk_stmt 169 ["ctx"; "vertex_shader_bg"; "fragment_shader_bg"] true ["prog_bg"];
    mk_stmt 172 ["Matrix44"] true ["proj"];
    mk_stmt 173 ["Matrix44"; "camera_pos"; "camera_pos"; "camera_front"; "camera_up"]
                true ["view"] ]%string.

Section Run.
(** The names of Python's [builtins] module. *)
Variable builtins : list string.
(** Whether the library and helper calls of a line return normally. *)
Variable returns : nat -> bool.

(** Loading a bare name inside [main]. *)
Definition load (bound : list string) (x : string) : option exn :=
  if mem x main_locals then
    if mem x bound then None else Some (UnboundLocalError x)
  else if mem x module_globals || mem x builtins then None
  else Some (NameError x).

Fixpoint load_all (bound : list string) (xs : list string) : option exn :=
  match xs with
  | [] => None
  | x :: xs' =>
      match load bound x with
      | Some e => Some e
      | None => load_all bound xs'
      end
  end.

(** Runs the statements in order; the result is the exception raised
    with its line, or the local names bound at the end. *)
Fixpoint run (bound : list string) (p : list stmt) : (exn * nat) + list string :=
  match p with
  | [] => inr bound
  | st :: p' =>
      match load_all bound (loads st) with
      | Some e => inl (e, line st)
      | None =>
          if negb (calls st) || returns (line st) then run (stores st ++ bound) p'
          else inl (LibraryError (line st), line st)
      end
  end.
End Run.

(** How a call of [main] ends: with an exception at some line, or after
    its loop has issued the operations [t]. *)
Inductive outcome (T : Type) : Type :=
| raised (e : exn) (at_line : nat)
| returned (t : list (gl_op T)).

Arguments raised {T} _ _.

(** [main()]: the prelude, then the loop on the event batches. *)
Definition main {T : Type} `{Scalar T} `{Pyrr T}
    (builtins : list string) (returns : nat -> bool)
    (batches : list (list event)) : outcome T :=
  match run builtins returns [] prelude with
  | inl (e, l) => raised e l
  | inr _ => returned (snd (main_loop batches loop_state0))
  end.

(** The functions of Python's [builtins] module. *)
Definition python_builtins : list string :=
  [ "abs"; "aiter"; "all"; "anext"; "any"; "ascii"; "bin"; "bool";
    "breakpoint"; "bytearray"; "bytes"; "callable"; "chr"; "classmethod";
    "compile"; "complex"; "delattr"; "dict"; "dir"; "divmod"; "enumerate";
    "eval"; "exec"; "filter"; "float"; "format"; "frozenset"; "getattr";
    "globals"; "hasattr"; "hash"; "help"; "hex"; "id"; "input"; "int";
    "isinstance"; "issubclass"; "iter"; "len"; "list"; "locals"; "map";
    "max"; "memoryview"; "min"; "next"; "object"; "oct"; "open"; "ord";
    "pow"; "print"; "property"; "range"; "repr"; "reversed"; "round";
    "set"; "setattr"; "slice"; "sorted"; "staticmethod"; "str"; "sum";
    "super"; "tuple"; "type"; "vars"; "zip"; "__import__" ]%string.

End Startup.

(** * Predicates and sample states of the statements *)

(** ** Binary64 *)

Definition finite_vec (v : vec3 float) : bool :=
  is_finite (vx v) && is_finite (vy v) && is_finite (vz v).

Definition finite_star (s : star_state float) : bool :=
  finite_vec (star_pos s) && finite_vec (star_vel s).

Definition nan_vec : vec3 float := mk3 nan nan nan.

(** The star exactly on the black hole, with the program's velocity. *)
Definition star_at_origin : star_state float :=
  mk_star (mk3 0 0 0)%float star_vel0.

(** The star at a distance whose square still is a positive binary64
    number, but so small that the force overflows. *)
Definition star_near_origin : star_state float :=
  mk_star (mk3 0 0 1e-150)%float star_vel0.

(** ** Infall *)

(** The star at rest at [(0, 0, 10)]. *)
Definition infall0 {T : Type} `{Scalar T} : star_state T :=
  mk_star (mk3 lit_0 lit_0 lit_10) (mk3 lit_0 lit_0 lit_0).

(** The distance of the star from the black hole, line 192. *)
Definition radius {T : Type} `{Scalar T} (s : star_state T) : T := norm (star_pos s).

(** Over the next [n] updates the star stays on the z axis, its height
    decreases and its distance from the origin grows, on each of them. *)
Fixpoint recedes (n : nat) (s : star_state float) : bool :=
  match n with
  | O => true
  | S k =>
      let s' := physics_update s in
      PrimFloat.eqb (vx (star_pos s')) 0
      && PrimFloat.eqb (vy (star_pos s')) 0
      && PrimFloat.ltb (vz (star_pos s')) (vz (star_pos s))
      && PrimFloat.ltb (radius s) (radius s')
      && recedes k s'
  end.

(** A state on the z axis, in exact arithmetic. *)
Definition on_axis (z v : R) : star_state R := mk_star (mk3 0 0 z)%R (mk3 0 0 v)%R.

(** The star is below the origin on the z axis, at a distance of at least
    [1e14], and moves down fast enough to keep doing so. *)
Definition receding (s : star_state R) : Prop :=
  exists d w : R,
    s = on_axis (- d) (- w)
    /\ (1e14 <= d)%R
    /\ (g * blackhole_mass <= (w - 1e16) * d)%R.

(** ** Camera *)

(** The camera poses the program can be in when an event is handled: the
    initial pose, and any pose an event leaves behind. *)
Inductive camera_reachable {T : Type} `{Scalar T} : camera T -> Prop :=
| reach_start : camera_reachable camera0
| reach_event : forall (b : bool) (c : camera T) (ev : event),
    camera_reachable c -> camera_reachable (snd (handle_event (b, c) ev)).

(** The camera step of the specification: forward and backward by
    [0.5 * front], left and right by [0.5 * normalize(cross(front, up))]. *)
Definition steps_by_half {T : Type} `{Scalar T} (c : camera T) : Prop :=
  let side := normalize (cross (camera_front c) (camera_up c)) in
  camera_pos (on_keydown K_w c) = vadd (camera_pos c) (smul_v lit_0_5 (camera_front c))
  /\ camera_pos (on_keydown K_s c) = vsub (camera_pos c) (smul_v lit_0_5 (camera_front c))
  /\ camera_pos (on_keydown K_a c) = vsub (camera_pos c) (smul_v lit_0_5 side)
  /\ camera_pos (on_keydown K_d c) = vadd (camera_pos c) (smul_v lit_0_5 side)
  /\ norm (smul_v lit_0_5 (camera_front c)) = lit_0_5
  /\ norm (smul_v lit_0_5 side) = lit_0_5.

(** ** Render pass *)

(** The order in which the specification wants the layers drawn. *)
Definition layer_order : list layer := [ background; disk; ring; blackhole; star ].

Definition all_programs : list program :=
  [ prog_bg; prog_disk; prog_ring; prog_bh; prog_star ].

(** ** Name resolution *)

(** A name that resolves without the builtins: a local of [main] that is
    already bound, or a module-level name. *)
Definition resolvable (bound : list string) (x : string) : bool :=
  if Startup.mem x Startup.main_locals then Startup.mem x bound
  else Startup.mem x Startup.module_globals.

(** * Further code of [main.py] *)

(** ** [create_sphere] (lines 68-81) *)

(** The conversion of a binary64 number to float32, as
    [np.array(..., dtype='f4')] performs it: rounding to the nearest
    number with a 24-bit mantissa (ties to even), to an infinity beyond
    the float32 range.  The result is held as the binary64 number of the
    same value. *)
Definition f4_round (x : spec_float) : spec_float :=
  match x with
  | S754_finite s m e => binary_round 24 128 s m e
  | _ => x
  end.

Definition astype_f4 (x : float) : float := SF2Prim (f4_round (Prim2SF x)).

(** The array [vertices] of lines 70-75, of dtype ['f4']. *)
Definition sphere_vertices (radius : float) : list float :=
  map astype_f4
    [ - radius; - radius; 0.0;
      radius; - radius; 0.0;
      radius; radius; 0.0;
      - radius; radius; 0.0 ]%float.

(** The array [colors] of line 76: [list(color) * 4], of dtype ['f4']. *)
Definition sphere_colors (color : list float) : list float :=
  map astype_f4 (List.concat (repeat color 4)).

Section Sphere.
Context {T : Type}.

(** A buffer read by a vertex array with the layout ['3f'] (line 80):
    one vector per three consecutive numbers. *)
Fixpoint read_3f (buf : list T) : list (vec3 T) :=
  match buf with
  | x :: y :: z :: rest => mk3 x y z :: read_3f rest
  | _ => []
  end.

(** The same for the layout ['4f']. *)
Fixpoint read_4f (buf : list T) : list (list T) :=
  match buf with
  | a :: b :: c :: d :: rest => [a; b; c; d] :: read_4f rest
  | _ => []
  end.
End Sphere.

(** ** The background shaders (lines 17-40), in exact arithmetic *)

(** Line 26 of [vertex_shader_bg]: [uv = in_vert.xy * 0.0125 + 0.5]. *)
Definition bg_uv (x y : R) : R * R := (x * 0.0125 + 0.5, y * 0.0125 + 0.5)%R.

(** GLSL's [mix(x, y, a)]. *)
Definition glsl_mix (x y a : R) : R := (x * (1 - a) + y * a)%R.

(** Line 36 of [fragment_shader_bg]: [1.0 / (1.0 + 20.0 * pow(r, 3.0))],
    the cube written as a product. *)
Definition lens_of (r : R) : R := (1 / (1 + 20 * (r * r * r)))%R.

(** Line 35: [r = length(uv - vec2(0.5, 0.5))]. *)
Definition bg_radius (u v : R) : R :=
  sqrt ((u - 0.5) * (u - 0.5) + (v - 0.5) * (v - 0.5))%R.

(** Lines 35-38: the colour written for the texture coordinate [(u, v)]. *)
Definition bg_fragment (u v : R) : R * R * R * R :=
  let lens := lens_of (bg_radius u v) in
  (glsl_mix 0.1 0 lens, glsl_mix 0.1 0 lens, glsl_mix 0.15 0 lens, 1)%R.

(** The channels of a colour. *)
Definition red (c : R * R * R * R) : R := fst (fst (fst c)).
Definition green (c : R * R * R * R) : R := snd (fst (fst c)).
Definition blue (c : R * R * R * R) : R := snd (fst c).
Definition alpha (c : R * R * R * R) : R := snd c.

(** The array [vertices] of [draw_background], lines 4-9. *)
Definition background_vertices : list R :=
  [ -40; -40; 0;  40; -40; 0;  40; 40; 0;  -40; 40; 0 ]%R.

(** ** Counting what a run of the loop does *)

Section TraceCounts.
Context {T : Type}.

(** The frames presented: the calls of [pygame.display.flip()]. *)
Fixpoint frames (t : list (gl_op T)) : nat :=
  match t with
  | [] => 0
  | display_flip :: t' => S (frames t')
  | _ :: t' => frames t'
  end.

(** The buffers created by [ctx.buffer] (line 10). *)
Fixpoint buffers_created (t : list (gl_op T)) : nat :=
  match t with
  | [] => 0
  | ctx_buffer :: t' => S (buffers_created t')
  | _ :: t' => buffers_created t'
  end.

(** The vertex arrays created by [ctx.simple_vertex_array] (line 11). *)
Fixpoint vertex_arrays_created (t : list (gl_op T)) : nat :=
  match t with
  | [] => 0
  | ctx_simple_vertex_array _ :: t' => S (vertex_arrays_created t')
  | _ :: t' => vertex_arrays_created t'
  end.
End TraceCounts.

Definition is_quit (ev : event) : bool :=
  match ev with QUIT => true | _ => false end.

Definition has_quit (evs : list event) : bool := existsb is_quit evs.

(** The events no branch of lines 178-189 reacts to. *)
Definition ignored (ev : event) : bool :=
  match ev with
  | QUIT => false
  | KEYDOWN (K_other _) => true
  | KEYDOWN _ => false
  | OTHER _ => true
  end.

(** The number of key-down events for the key [k] in a batch. *)
Fixpoint presses (k : key) (evs : list event) : nat :=
  match evs with
  | [] => 0
  | KEYDOWN k' :: evs' => (if is_key k' k then 1 else 0) + presses k evs'
  | _ :: evs' => presses k evs'
  end.

(** The star's angular momentum per unit mass about the black hole. *)
Definition angular_momentum {T : Type} `{Scalar T} (s : star_state T) : vec3 T :=
  cross (star_pos s) (star_vel s).

(** The position reached from [p] with the axes [f] and [u] after the
    given numbers of presses of W, S, D and A, in exact arithmetic. *)
Definition displaced (p f u : vec3 R) (nw ns nd na : nat) : vec3 R :=
  vadd (vadd p (smul_v (0.5 * (INR nw - INR ns))%R f))
       (smul_v (0.5 * (INR nd - INR na))%R (cross f u)).

(** All sequences of [n] key-down events for W, A, S and D. *)
Fixpoint key_sequences (n : nat) : list (list event) :=
  match n with
  | O => [ [] ]
  | S m =>
      flat_map (fun evs => [ KEYDOWN K_w :: evs; KEYDOWN K_s :: evs;
                             KEYDOWN K_a :: evs; KEYDOWN K_d :: evs ])
               (key_sequences m)
  end.

(** The same key presses, sorted by key. *)
Definition sorted_presses (evs : list event) : list event :=
  repeat (KEYDOWN K_w) (presses K_w evs) ++ repeat (KEYDOWN K_s) (presses K_s evs)
  ++ repeat (KEYDOWN K_a) (presses K_a evs) ++ repeat (KEYDOWN K_d) (presses K_d evs).

Definition vec3_eqb (a b : vec3 float) : bool :=
  PrimFloat.eqb (vx a) (vx b) && PrimFloat.eqb (vy a) (vy b)
  && PrimFloat.eqb (vz a) (vz b).

(** In binary64, from the initial pose: the position a sequence of key
    presses leads to is the one its sorted version leads to. *)
Definition order_irrelevant (evs : list event) : bool :=
  vec3_eqb (camera_pos (snd (handle_events evs (true, camera0))))
           (camera_pos (snd (handle_events (sorted_presses evs) (true, camera0)))).

(** Some coordinate of the vector is NaN. *)
Definition has_nan (v : vec3 float) : Prop :=
  vx v = nan \/ vy v = nan \/ vz v = nan.

(** ** Exact values of binary64 results *)












Definition skew_camera : camera float :=
  (mk_camera (mk3 0 0 20) (mk3 0 0 (-1)) (mk3 0 0.6 0.8))%float.

(** Python's builtins with the two missing helpers added to them. *)
Definition builtins_with_helpers : list string :=
  ("create_disk" :: "create_ring" :: Startup.python_builtins)%string.

(** * Properties *)

(** ** The physics update in binary64 *)

Section PhysicsFloat.
Local Open Scope float_scope.

(** A sum with a NaN operand is NaN. *)
Lemma add_nan_r (x : float) : x + nan = nan.
Proof.
  apply Prim2SF_inj.
  rewrite add_spec.
  change (Prim2SF nan) with S754_nan.
  unfold SF64add, SFadd.
  destruct (Prim2SF x) as [ sx | sx | | sx mx ex ]; reflexivity.
Qed.

Lemma vadd_nan_r (v : vec3 float) : vadd v nan_vec = nan_vec.
Proof.
  unfold vadd, nan_vec; cbn.
  now rewrite !add_nan_r.
Qed.

(** At the origin the distance is zero and the acceleration is NaN in
    every component: [force] is [-inf] and [star_pos / r] is [0 / 0]. *)
Lemma acc_origin : acc (mk3 0 0 0) = nan_vec.
Proof. vm_compute. reflexivity. Qed.

Lemma physics_update_origin (vel : vec3 float) :
  physics_update (mk_star (mk3 0 0 0) vel) = mk_star nan_vec nan_vec.
Proof.
  unfold physics_update.
  cbn [star_pos star_vel].
  rewrite acc_origin.
  replace (vmul_s nan_vec lit_0_01) with nan_vec by (vm_compute; reflexivity).
  rewrite vadd_nan_r.
  vm_compute. reflexivity.
Qed.
End PhysicsFloat.

(** C1, as stated, fails: the state with the star on the black hole is a
    finite input at distance zero, and the step turns every component of
    its position and velocity into NaN; nothing in lines 192-196 tests or
    clamps [r]. *)
Lemma degenerate_step_not_guarded :
  finite_star star_at_origin = true
  /\ norm (star_pos star_at_origin) = 0%float
  /\ physics_update star_at_origin = mk_star nan_vec nan_vec
  /\ finite_star (physics_update star_at_origin) = false
  /\ ~ (forall s : star_state float,
          finite_star s = true -> finite_star (physics_update s) = true).
Proof.
  assert (E : physics_update star_at_origin = mk_star nan_vec nan_vec)
    by apply physics_update_origin.
  split; [ reflexivity | ].
  split; [ vm_compute; reflexivity | ].
  split; [ exact E | ].
  split.
  - rewrite E. reflexivity.
  - intros G. specialize (G star_at_origin eq_refl).
    rewrite E in G. discriminate G.
Qed.

(** C1, amended: the update has no guard.  With the star at distance zero,
    whatever its velocity, the step leaves NaN in every component of
    position and velocity; close to the origin the force overflows and the
    step leaves infinities; from the program's own initial state the
    result is finite. *)
Theorem physics_update_degenerate :
  (forall vel : vec3 float,
      physics_update (mk_star (mk3 0 0 0) vel) = mk_star nan_vec nan_vec)%float
  /\ (physics_update star_near_origin
      = mk_star (mk3 nan nan neg_infinity) (mk3 nan nan neg_infinity))
  /\ finite_star (physics_update (mk_star star_pos0 star_vel0)) = true.
Proof.
  split; [ exact physics_update_origin | ].
  split; vm_compute; reflexivity.
Qed.

(** ** The integration scheme *)

(** C2: one physics update is a semi-implicit Euler step with the fixed
    time step 0.01: the velocity is advanced by [acc * 0.01] first, and
    the position by the advanced velocity times 0.01.  It holds at every
    state, in binary64 as in exact arithmetic. *)
Theorem physics_update_semi_implicit :
  forall (T : Type) (S : Scalar T) (s : star_state T),
    physics_update s = semi_implicit_euler acc lit_0_01 s
    /\ star_vel (physics_update s)
       = vadd (star_vel s) (vmul_s (acc (star_pos s)) lit_0_01)
    /\ star_pos (physics_update s)
       = vadd (star_pos s) (vmul_s (star_vel (physics_update s)) lit_0_01)
    /\ (lit_0_01 : float) = 0.01%float
    /\ (lit_0_01 : R) = 0.01%R.
Proof.
  intros T S s.
  split; [ reflexivity | ].
  split; [ reflexivity | ].
  split; [ reflexivity | ].
  split; reflexivity.
Qed.

(** The order matters: from the program's initial state a forward Euler
    step, which moves the position with the old velocity, ends elsewhere. *)
Lemma physics_update_not_explicit :
  physics_update (mk_star star_pos0 star_vel0)
    = (mk_star (mk3 0 0 (-667429999999989.88)) (mk3 0 0 (-66742999999999992)))%float
  /\ explicit_euler acc lit_0_01 (mk_star star_pos0 star_vel0)
    = (mk_star (mk3 0 0 9.999) (mk3 0 0 (-66742999999999992)))%float.
Proof. split; vm_compute; reflexivity. Qed.

(** ** The physics update in exact arithmetic *)

Section PhysicsReal.
Local Open Scope R_scope.

Lemma g_R : (g : R) = 6.67430e-11.
Proof. reflexivity. Qed.

Lemma blackhole_mass_R : (blackhole_mass : R) = 1e31.
Proof. reflexivity. Qed.

Lemma star_mass_R : (star_mass : R) = 1e30.
Proof. reflexivity. Qed.


Lemma star_mass_neq0 : (star_mass : R) <> 0.
Proof. rewrite star_mass_R. lra. Qed.

Lemma dot_self_nonneg (v : vec3 R) : 0 <= dot v v.
Proof. unfold dot; cbn. nra. Qed.

Lemma norm_smul_v (k : R) (v : vec3 R) : norm (smul_v k v) = Rabs k * norm v.
Proof.
  assert (E : dot (smul_v k v) (smul_v k v) = Rsqr k * dot v v).
  { unfold dot, smul_v, Rsqr; cbn. ring. }
  unfold norm; cbn [ssqrt Scalar_R].
  rewrite E, sqrt_mult; [ | apply Rle_0_sqr | apply dot_self_nonneg ].
  now rewrite sqrt_Rsqr_abs.
Qed.

(** Lines 193-194 written out on the three coordinates. *)
Lemma acc_R (pos : vec3 R) :
  acc pos =
  mk3 (- g * blackhole_mass * star_mass / (norm pos * norm pos) / star_mass
         * (vx pos / norm pos))
      (- g * blackhole_mass * star_mass / (norm pos * norm pos) / star_mass
         * (vy pos / norm pos))
      (- g * blackhole_mass * star_mass / (norm pos * norm pos) / star_mass
         * (vz pos / norm pos)).
Proof.
  reflexivity.
Qed.

(** The acceleration is the position scaled by [- g M / r^3]. *)
Lemma acc_radial (pos : vec3 R) :
  0 < norm pos ->
  acc pos = smul_v (- (g * blackhole_mass / (norm pos * norm pos * norm pos))) pos.
Proof.
  intros Hr.
  pose proof star_mass_neq0 as Hm.
  rewrite acc_R.
  unfold smul_v; cbn [vx vy vz smul Scalar_R].
  set (r := norm pos) in *.
  assert (r <> 0) by lra.
  generalize dependent (star_mass : R).
  generalize (blackhole_mass : R).
  generalize (g : R).
  intros G M m Hm.
  f_equal; field; split; assumption.
Qed.

End PhysicsReal.

(** ** The inverse-square law *)

Section LawBinary64.
Local Open Scope Z_scope.







End LawBinary64.



(** Evaluated in binary64 with [r**2] as [r * r], the magnitude at
    [(1, 1, 1)] and the quotient [g M / r^2] differ in the last place. *)
Lemma inverse_square_rounding :
  (norm (acc (mk3 1 1 1)) = 2.2247666666666672e+20
   /\ g * blackhole_mass / (norm (mk3 1 1 1) * norm (mk3 1 1 1))
      = 2.2247666666666669e+20)%float.
Proof. split; vm_compute; reflexivity. Qed.



(** ** Radial infall *)

Lemma physics_steps_succ {T : Type} `{Scalar T} (n : nat) (s : star_state T) :
  physics_steps (S n) s = physics_update (physics_steps n s).
Proof.
  revert s. induction n as [ | n IH ]; intros s.
  - reflexivity.
  - change (physics_steps (S (S n)) s) with (physics_steps (S n) (physics_update s)).
    rewrite IH. reflexivity.
Qed.

Section InfallReal.
Local Open Scope R_scope.

Lemma norm_axis (z : R) : norm (mk3 0 0 z) = Rabs z.
Proof.
  unfold norm, dot; cbn.
  replace (0 * 0 + 0 * 0 + z * z) with (Rsqr z) by (unfold Rsqr; ring).
  apply sqrt_Rsqr_abs.
Qed.

(** The update of a state on the axis, on either side of the origin. *)
Lemma physics_update_axis (z v : R) :
  z <> 0 ->
  physics_update (on_axis z v)
  = on_axis (z + (v - g * blackhole_mass / (Rabs z * Rabs z * Rabs z) * z * 0.01) * 0.01)
            (v - g * blackhole_mass / (Rabs z * Rabs z * Rabs z) * z * 0.01).
Proof.
  intros Hz.
  assert (Hr : 0 < norm (mk3 0 0 z)) by (rewrite norm_axis; now apply Rabs_pos_lt).
  unfold physics_update, on_axis.
  cbn [star_pos star_vel].
  rewrite (acc_radial _ Hr), norm_axis.
  unfold vadd, vmul_s, smul_v.
  cbn [vx vy vz sadd smul Scalar_R lit_0_01].
  f_equal; f_equal; ring.
Qed.

(** One update of a receding star: [d] is its distance below the origin
    and [w] its downward speed.  [k] stands for [g * blackhole_mass], [h]
    for the time step and [W] for a speed the star keeps exceeding. *)
Lemma recede_step (k h W d w : R) :
  0 < k -> 0 < h -> 3 <= W -> 2 * h <= d -> k * h <= d * d ->
  k <= (w - W) * d ->
  let w' := w - k / (d * d) * h in
  let d' := d + w' * h in
  2 <= w' /\ d < d' /\ k <= (w' - W) * d'.
Proof.
  intros Hk Hh HW Hd Hkh Hw w' d'.
  assert (Hd0 : 0 < d) by lra.
  assert (Hdd : 0 < d * d) by now apply Rmult_lt_0_compat.
  set (a := k / (d * d)) in *.
  assert (Ha : a * (d * d) = k) by (unfold a; field; lra).
  assert (Ha0 : 0 < a) by (unfold a; now apply Rdiv_lt_0_compat).
  assert (Hah : a * h <= 1).
  { apply Rmult_le_reg_r with (d * d); [ assumption | ]. nra. }
  assert (Hwa : a * d <= w - W).
  { apply Rmult_le_reg_r with d; [ assumption | ]. nra. }
  assert (Hw' : 2 <= w') by (unfold w'; nra).
  assert (Hd' : d < d') by (unfold d'; nra).
  repeat split; try assumption.
  assert (H1 : a * (d - h) <= w' - W) by (unfold w'; nra).
  assert (H2 : d + 2 * h <= d') by (unfold d'; nra).
  assert (H3 : 0 <= a * (d - h)) by nra.
  assert (H4 : a * (d - h) * (d + 2 * h) <= (w' - W) * d').
  { apply Rmult_le_compat; nra. }
  assert (H5 : 0 <= a * h * (d - 2 * h)).
  { apply Rmult_le_pos; [ apply Rmult_le_pos | ]; lra. }
  replace k with (a * (d - h) * (d + 2 * h) - a * h * (d - 2 * h))
    by (rewrite <- Ha; ring).
  lra.
Qed.
Lemma gM_value : (g : R) * blackhole_mass = 6.6743e20.
Proof. rewrite g_R, blackhole_mass_R. lra. Qed.

Lemma receding_update (s : star_state R) :
  receding s ->
  receding (physics_update s)
  /\ radius s < radius (physics_update s)
  /\ vz (star_pos (physics_update s)) < vz (star_pos s).
Proof.
  intros (d & w & -> & Hd & Hw).
  pose proof gM_value as Hk.
  assert (Hdd : 1e28 <= d * d) by nra.
  destruct (recede_step (k := g * blackhole_mass) (h := 0.01) (W := 1e16) (d := d) (w := w))
    as (Hw' & Hd' & Hinv); try lra.
  rewrite physics_update_axis by lra.
  rewrite Rabs_Ropp, (Rabs_pos_eq d) by lra.
  set (k := (g : R) * blackhole_mass) in *.
  set (w' := w - k / (d * d) * 0.01) in *.
  set (d' := d + w' * 0.01) in *.
  assert (Ev : - w - k / (d * d * d) * - d * 0.01 = - w')
    by (unfold w'; field; lra).
  rewrite Ev.
  replace (- d + - w' * 0.01) with (- d') by (unfold d'; ring).
  split; [ | split ].
  - exists d', w'.
    split; [ reflexivity | ].
    split; [ lra | exact Hinv ].
  - unfold radius, on_axis; cbn [star_pos].
    rewrite !norm_axis, !Rabs_Ropp, !Rabs_pos_eq by lra.
    exact Hd'.
  - unfold on_axis; cbn [star_pos vz]. lra.
Qed.

Lemma receding_steps (n : nat) (s : star_state R) :
  receding s -> receding (physics_steps n s).
Proof.
  intros Hs. induction n as [ | n IH ].
  - exact Hs.
  - rewrite physics_steps_succ. now apply receding_update.
Qed.

(** The first update from rest at [(0, 0, 10)]: the star ends far below
    the origin. *)
Lemma infall_first_update :
  physics_update (infall0 : star_state R)
  = on_axis (10 - 6.6743e14) (- 6.6743e16).
Proof.
  change (infall0 : star_state R) with (on_axis 10 0).
  rewrite physics_update_axis by lra.
  rewrite (Rabs_pos_eq 10) by lra.
  rewrite gM_value.
  unfold on_axis. f_equal; f_equal; lra.
Qed.

Lemma infall_first_receding : receding (physics_update (infall0 : star_state R)).
Proof.
  rewrite infall_first_update.
  exists (6.6743e14 - 10), 6.6743e16.
  split; [ unfold on_axis; f_equal; f_equal; lra | ].
  rewrite gM_value. split; lra.
Qed.

(** In exact arithmetic the distance grows on every update, the first one
    included, and the height decreases on every update. *)
Lemma real_infall_recedes (n : nat) :
  radius (physics_steps n (infall0 : star_state R))
    < radius (physics_steps (S n) infall0)
  /\ vz (star_pos (physics_steps (S n) (infall0 : star_state R)))
    < vz (star_pos (physics_steps n infall0)).
Proof.
  destruct n as [ | n ].
  - change (physics_steps 1 (infall0 : star_state R)) with (physics_update (infall0 : star_state R)).
    rewrite infall_first_update.
    change (physics_steps 0 (infall0 : star_state R)) with (on_axis 10 0).
    unfold radius, on_axis; cbn [star_pos vz].
    rewrite !norm_axis, (Rabs_pos_eq 10), (Rabs_left (10 - 6.6743e14)) by lra.
    split; lra.
  - rewrite (physics_steps_succ (S n)).
    assert (Hr : receding (physics_steps (S n) (infall0 : star_state R))).
    { change (physics_steps (S n) (infall0 : star_state R))
        with (physics_steps n (physics_update (infall0 : star_state R))).
      apply receding_steps, infall_first_receding. }
    destruct (receding_update Hr) as (_ & H1 & H2).
    split; assumption.
Qed.
End InfallReal.

(** C8, as stated, fails on the very first update: the distance goes from
    10 to about 6.67e14, the star having passed through the origin, and it
    is not smaller after the second update either. *)
Lemma infall_not_decreasing :
  radius (infall0 : star_state float) = 10%float
  /\ radius (physics_steps 1 (infall0 : star_state float)) = 667429999999989.88%float
  /\ PrimFloat.ltb (radius (physics_steps 1 (infall0 : star_state float)))
                   (radius (infall0 : star_state float)) = false
  /\ PrimFloat.ltb (radius (physics_steps 2 (infall0 : star_state float)))
                   (radius (physics_steps 1 (infall0 : star_state float))) = false.
Proof. repeat split; vm_compute; reflexivity. Qed.

(** C8, amended: from rest at [(0, 0, 10)] the first update carries the
    star through the origin to [z = 10 - 6.6743e14], and from there it
    recedes: on every update the height [z] strictly decreases and the
    distance [r] strictly increases.  This holds for every update in exact
    arithmetic, and in binary64 for the first thousand updates, during
    which the star stays on the z axis. *)
Theorem infall_recedes :
  (forall n : nat,
      (radius (physics_steps n (infall0 : star_state R))
         < radius (physics_steps (S n) infall0))%R
      /\ (vz (star_pos (physics_steps (S n) (infall0 : star_state R)))
         < vz (star_pos (physics_steps n infall0)))%R)
  /\ physics_update (infall0 : star_state R)
     = mk_star (mk3 0 0 (10 - 6.6743e14))%R (mk3 0 0 (- 6.6743e16))%R
  /\ recedes 1000 infall0 = true.
Proof.
  split; [ exact real_infall_recedes | ].
  split; [ exact infall_first_update | ].
  vm_compute. reflexivity.
Qed.

(** ** The camera *)

Section CameraFrame.
Context {T : Type} `{Scalar T}.

Lemma on_keydown_axes (k : key) (c : camera T) :
  camera_front (on_keydown k c) = camera_front c
  /\ camera_up (on_keydown k c) = camera_up c.
Proof. destruct k; split; reflexivity. Qed.

Lemma on_keydown_other (code : Z) (c : camera T) : on_keydown (K_other code) c = c.
Proof. reflexivity. Qed.

Lemma handle_event_axes (st : bool * camera T) (ev : event) :
  camera_front (snd (handle_event st ev)) = camera_front (snd st)
  /\ camera_up (snd (handle_event st ev)) = camera_up (snd st).
Proof.
  destruct ev as [ | k | ty ]; cbn [handle_event snd]; try (split; reflexivity).
  apply on_keydown_axes.
Qed.

Lemma handle_events_axes (evs : list event) (st : bool * camera T) :
  camera_front (snd (handle_events evs st)) = camera_front (snd st)
  /\ camera_up (snd (handle_events evs st)) = camera_up (snd st).
Proof.
  unfold handle_events. revert st.
  induction evs as [ | ev evs IH ]; intros st; cbn [fold_left].
  - split; reflexivity.
  - destruct (IH (handle_event st ev)) as [ IHf IHu ].
    destruct (handle_event_axes st ev) as [ Hf Hu ].
    split; congruence.
Qed.

Lemma handle_events_reachable (evs : list event) (st : bool * camera T) :
  camera_reachable (snd st) -> camera_reachable (snd (handle_events evs st)).
Proof.
  unfold handle_events. revert st.
  induction evs as [ | ev evs IH ]; intros [ b c ] Hc; cbn [fold_left].
  - exact Hc.
  - apply IH. now apply reach_event.
Qed.

Lemma camera_reachable_axes (c : camera T) :
  camera_reachable c ->
  camera_front c = camera_front0 /\ camera_up c = camera_up0.
Proof.
  induction 1 as [ | b c ev Hc [ IHf IHu ] ].
  - split; reflexivity.
  - destruct (handle_event_axes (b, c) ev) as [ Hf Hu ].
    cbn [snd] in Hf, Hu. split; congruence.
Qed.
End CameraFrame.

Section CameraLoop.
Context {T : Type} `{Scalar T} `{Pyrr T}.

Lemma frame_cam (evs : list event) (s : loop_state T) :
  cam (fst (frame evs s)) = snd (handle_events evs (running s, cam s)).
Proof.
  unfold frame.
  destruct (handle_events evs (running s, cam s)) as [ b c ].
  reflexivity.
Qed.

Lemma main_loop_reachable (batches : list (list event)) (s : loop_state T) :
  camera_reachable (cam s) -> camera_reachable (cam (fst (main_loop batches s))).
Proof.
  revert s.
  induction batches as [ | evs rest IH ]; intros s Hs; cbn [main_loop].
  - exact Hs.
  - destruct (running s); [ | exact Hs ].
    pose proof (frame_cam evs s) as Hc.
    destruct (frame evs s) as [ s1 t1 ]. cbn [fst] in Hc.
    specialize (IH s1).
    destruct (main_loop rest s1) as [ s2 t2 ]. cbn [fst] in *.
    apply IH. rewrite Hc.
    now apply (handle_events_reachable evs (running s, cam s)).
Qed.
End CameraLoop.

(** What lines 183-189 compute, for any front and up vectors: the cross
    product is used as it is, without normalisation. *)
Lemma on_keydown_pos {T : Type} `{Scalar T} (c : camera T) :
  camera_pos (on_keydown K_w c)
    = vadd (camera_pos c) (vmul_s (camera_front c) lit_0_5)
  /\ camera_pos (on_keydown K_s c)
    = vsub (camera_pos c) (vmul_s (camera_front c) lit_0_5)
  /\ camera_pos (on_keydown K_a c)
    = vsub (camera_pos c) (vmul_s (cross (camera_front c) (camera_up c)) lit_0_5)
  /\ camera_pos (on_keydown K_d c)
    = vadd (camera_pos c) (vmul_s (cross (camera_front c) (camera_up c)) lit_0_5).
Proof. repeat split. Qed.

Section CameraFloat.
Local Open Scope float_scope.

Lemma camera_axes_float :
  (camera_front0 : vec3 float) = mk3 0 0 (-1)
  /\ (camera_up0 : vec3 float) = mk3 0 1 0
  /\ cross (camera_front0 : vec3 float) camera_up0 = mk3 1 (-0) 0
  /\ norm (cross (camera_front0 : vec3 float) camera_up0) = 1
  /\ norm (camera_front0 : vec3 float) = 1
  /\ norm (camera_up0 : vec3 float) = 1.
Proof. repeat split. Qed.

Lemma steps_by_half_float (p : vec3 float) :
  steps_by_half (mk_camera p camera_front0 camera_up0).
Proof.
  unfold steps_by_half.
  cbn [camera_pos camera_front camera_up].
  repeat split; vm_compute; reflexivity.
Qed.
End CameraFloat.

Section CameraReal.
Local Open Scope R_scope.

Lemma camera_front0_R : (camera_front0 : vec3 R) = mk3 0 0 (-1).
Proof. reflexivity. Qed.

Lemma camera_up0_R : (camera_up0 : vec3 R) = mk3 0 1 0.
Proof. reflexivity. Qed.

Lemma cross_axes_R : cross (camera_front0 : vec3 R) camera_up0 = mk3 1 0 0.
Proof. rewrite camera_front0_R, camera_up0_R. unfold cross; cbn. f_equal; lra. Qed.

Lemma norm_unit_x : norm (mk3 1 0 0 : vec3 R) = 1.
Proof.
  unfold norm, dot; cbn.
  replace (1 * 1 + 0 * 0 + 0 * 0) with 1 by ring.
  apply sqrt_1.
Qed.

Lemma norm_front0_R : norm (camera_front0 : vec3 R) = 1.
Proof. rewrite camera_front0_R, norm_axis. rewrite Rabs_left; lra. Qed.

Lemma normalize_unit_x : normalize (mk3 1 0 0 : vec3 R) = mk3 1 0 0.
Proof.
  unfold normalize. rewrite norm_unit_x.
  unfold vdiv_s; cbn. f_equal; lra.
Qed.

Lemma steps_by_half_R (p : vec3 R) :
  steps_by_half (mk_camera p camera_front0 camera_up0).
Proof.
  unfold steps_by_half.
  cbn [camera_pos camera_front camera_up].
  destruct (on_keydown_pos (mk_camera p camera_front0 camera_up0))
    as (Hw & Hs & Ha & Hd).
  cbn [camera_pos camera_front camera_up] in Hw, Hs, Ha, Hd.
  rewrite Hw, Hs, Ha, Hd, cross_axes_R, normalize_unit_x.
  rewrite !norm_smul_v, norm_front0_R, norm_unit_x.
  change (lit_0_5 : R) with 0.5.
  rewrite (Rabs_pos_eq 0.5) by lra.
  rewrite camera_front0_R.
  unfold vadd, vsub, vmul_s, smul_v; cbn.
  repeat split; try lra; f_equal; lra.
Qed.
End CameraReal.

(** C4, as stated, fails for a camera whose front and up vectors are of
    length one but not orthogonal: lines 186-189 use the cross product as
    it is, so A moves this camera by 0.3, where
    [0.5 * normalize(cross(front, up))] is a step of 0.5. *)
Lemma strafe_not_normalised :
  (norm (camera_front skew_camera) = 1
   /\ norm (camera_up skew_camera) = 1
   /\ camera_pos (on_keydown K_a skew_camera) = mk3 (-0.3) 0 20
   /\ vsub (camera_pos skew_camera)
           (smul_v lit_0_5
              (normalize (cross (camera_front skew_camera) (camera_up skew_camera))))
      = mk3 (-0.5) 0 20)%float
  /\ ~ steps_by_half skew_camera
  /\ ~ (forall c : camera float, steps_by_half c).
Proof.
  assert (N : ~ steps_by_half skew_camera).
  { intros (_ & _ & Ha & _).
    apply (f_equal (fun v => PrimFloat.eqb (vx v) (-0.3)%float)) in Ha.
    vm_compute in Ha. discriminate Ha. }
  split.
  - split; [ vm_compute; reflexivity | ].
    split; [ vm_compute; reflexivity | ].
    split; vm_compute; reflexivity.
  - split; [ exact N | ].
    intros H. exact (N (H skew_camera)).
Qed.

(** C4, amended: at every camera pose W and S move the position by plus
    and minus [0.5 * front], and A and D by minus and plus
    [0.5 * cross(front, up)], the cross product not being normalised; a
    key-down event applies its command once, and nothing but the event
    enters the new pose.  At every pose the program reaches, where front
    and up are the fixed orthogonal unit vectors, the strafe step is
    [0.5 * normalize(cross(front, up))] and every step has length 0.5, in
    binary64 and in exact arithmetic. *)
Theorem camera_step_size :
  (forall c : camera float, camera_reachable c -> steps_by_half c)
  /\ (forall c : camera R, camera_reachable c -> steps_by_half c)
  /\ (forall (T : Type) (S : Scalar T) (b : bool) (c : camera T) (k : key),
        handle_event (b, c) (KEYDOWN k) = (b, on_keydown k c))
  /\ (forall (T : Type) (S : Scalar T) (c : camera T),
        camera_pos (on_keydown K_w c)
          = vadd (camera_pos c) (vmul_s (camera_front c) lit_0_5)
        /\ camera_pos (on_keydown K_s c)
          = vsub (camera_pos c) (vmul_s (camera_front c) lit_0_5)
        /\ camera_pos (on_keydown K_a c)
          = vsub (camera_pos c) (vmul_s (cross (camera_front c) (camera_up c)) lit_0_5)
        /\ camera_pos (on_keydown K_d c)
          = vadd (camera_pos c) (vmul_s (cross (camera_front c) (camera_up c)) lit_0_5))
  /\ (forall (f u : vec3 R),
        vmul_s f lit_0_5 = smul_v 0.5%R f
        /\ vmul_s (cross f u) lit_0_5 = smul_v 0.5%R (cross f u)).
Proof.
  split; [ | split; [ | split; [ | split ] ] ].
  - intros [ p f u ] Hc.
    destruct (camera_reachable_axes Hc) as [ Hf Hu ].
    cbn [camera_front camera_up] in Hf, Hu. subst f u.
    apply steps_by_half_float.
  - intros [ p f u ] Hc.
    destruct (camera_reachable_axes Hc) as [ Hf Hu ].
    cbn [camera_front camera_up] in Hf, Hu. subst f u.
    apply steps_by_half_R.
  - reflexivity.
  - intros T S c. apply on_keydown_pos.
  - intros f u.
    unfold vmul_s, smul_v. cbn [vx vy vz smul Scalar_R lit_0_5].
    split; f_equal; apply Rmult_comm.
Qed.

(** The step at the initial pose. *)
Lemma camera_step_size_witness :
  camera_reachable (camera0 : camera float)
  /\ steps_by_half (camera0 : camera float)
  /\ camera_reachable (camera0 : camera R)
  /\ steps_by_half (camera0 : camera R).
Proof.
  split; [ apply reach_start | ].
  split; [ exact (proj1 camera_step_size camera0 reach_start) | ].
  split; [ apply reach_start | ].
  exact (proj1 (proj2 camera_step_size) camera0 reach_start).
Defined.

(** The code takes the cross product without normalising it, so the
    strafe step is half a unit only because front and up are the fixed
    orthogonal unit vectors: with a front vector twice as long, A moves
    the camera a whole unit, not half of one. *)
Lemma strafe_uses_raw_cross :
  (camera_pos (on_keydown K_a (mk_camera (mk3 0 0 20) (mk3 0 0 (-2)) (mk3 0 1 0)))
    = mk3 (-1) 0 20
  /\ vsub (mk3 0 0 20)
          (smul_v lit_0_5 (normalize (cross (mk3 0 0 (-2)) (mk3 0 1 0))))
    = mk3 (-0.5) 0 20)%float.
Proof. split; vm_compute; reflexivity. Qed.

(** C10: no event and no loop iteration changes the camera's front or up
    vector, so at every reachable pose, and after any run of the loop,
    front is [(0, 0, -1)] and up is [(0, 1, 0)]: both non-zero, of length
    one, with a cross product of length one (hence not parallel). *)
Theorem camera_axes_fixed :
  (forall (T : Type) (S : Scalar T) (k : key) (c : camera T),
      camera_front (on_keydown k c) = camera_front c
      /\ camera_up (on_keydown k c) = camera_up c)
  /\ (forall (T : Type) (S : Scalar T) (c : camera T),
        camera_reachable c ->
        camera_front c = camera_front0 /\ camera_up c = camera_up0)
  /\ (forall (T : Type) (S : Scalar T) (P : Pyrr T) (batches : list (list event)),
        camera_front (cam (fst (main_loop batches loop_state0))) = camera_front0
        /\ camera_up (cam (fst (main_loop batches loop_state0))) = camera_up0)
  /\ ((camera_front0 : vec3 float) = mk3 0 0 (-1)
      /\ (camera_up0 : vec3 float) = mk3 0 1 0
      /\ norm (cross (camera_front0 : vec3 float) camera_up0) = 1)%float
  /\ ((camera_front0 : vec3 R) = mk3 0 0 (-1)
      /\ (camera_up0 : vec3 R) = mk3 0 1 0
      /\ cross (camera_front0 : vec3 R) camera_up0 = mk3 1 0 0
      /\ norm (cross (camera_front0 : vec3 R) camera_up0) = 1
      /\ (camera_front0 : vec3 R) <> mk3 0 0 0
      /\ (camera_up0 : vec3 R) <> mk3 0 0 0
      /\ cross (camera_front0 : vec3 R) camera_up0 <> mk3 0 0 0)%R.
Proof.
  split; [ intros; apply on_keydown_axes | ].
  split; [ intros T S c Hc; now apply camera_reachable_axes | ].
  split.
  - intros T S P batches.
    apply camera_reachable_axes, main_loop_reachable, reach_start.
  - split.
    + destruct camera_axes_float as (Hf & Hu & _ & Hn & _).
      split; [ exact Hf | ]. split; [ exact Hu | exact Hn ].
    + split; [ exact camera_front0_R | ].
      split; [ exact camera_up0_R | ].
      split; [ exact cross_axes_R | ].
      rewrite cross_axes_R.
      split; [ exact norm_unit_x | ].
      rewrite camera_front0_R, camera_up0_R.
      repeat split; intros E; injection E; intros; lra.
Qed.

(** The pose after a W key press on the initial pose. *)
Lemma camera_axes_fixed_witness :
  camera_reachable (on_keydown K_w (camera0 : camera float))
  /\ camera_front (on_keydown K_w (camera0 : camera float)) = camera_front0
  /\ camera_up (on_keydown K_w (camera0 : camera float)) = camera_up0.
Proof.
  assert (Hc : camera_reachable (on_keydown K_w (camera0 : camera float))).
  { exact (reach_event true (KEYDOWN K_w) reach_start). }
  split; [ exact Hc | ].
  exact (proj1 (proj2 camera_axes_fixed) float Scalar_float _ Hc).
Defined.

(** ** The render pass *)

Section RenderPass.
Context {T : Type} `{Scalar T} `{Pyrr T}.

Lemma draws_app (t1 t2 : list (gl_op T)) : draws (t1 ++ t2) = draws t1 ++ draws t2.
Proof.
  induction t1 as [ | op t1 IH ]; [ reflexivity | ].
  destruct op; cbn [app draws]; rewrite IH; reflexivity.
Qed.

Lemma frame_trace (evs : list event) (s : loop_state T) :
  snd (frame evs s)
  = render_pass (proj s) (view_of (cam (fst (frame evs s))))
                (star_pos (body (fst (frame evs s)))).
Proof.
  unfold frame.
  destruct (handle_events evs (running s, cam s)) as [ b c ].
  reflexivity.
Qed.

Lemma frame_body (evs : list event) (s : loop_state T) :
  body (fst (frame evs s)) = physics_update (body s).
Proof.
  unfold frame.
  destruct (handle_events evs (running s, cam s)) as [ b c ].
  reflexivity.
Qed.

Lemma frame_view (evs : list event) (s : loop_state T) :
  view (fst (frame evs s)) = view_of (cam (fst (frame evs s))).
Proof.
  unfold frame.
  destruct (handle_events evs (running s, cam s)) as [ b c ].
  reflexivity.
Qed.

Lemma render_pass_draws (pr vw : mat44 T) (p : vec3 T) :
  draws (render_pass pr vw p) = layer_order.
Proof. reflexivity. Qed.

Lemma render_pass_replay (u : uniforms) (pr vw : mat44 T) (p : vec3 T) :
  replay u (render_pass pr vw p)
  = [ mk_drawn background (Some identity) (Some vw) (Some pr);
      mk_drawn disk (Some identity) (Some vw) (Some pr);
      mk_drawn ring (Some identity) (Some vw) (Some pr);
      mk_drawn blackhole (Some identity) (Some vw) (Some pr);
      mk_drawn star (Some (from_translation p)) (Some vw) (Some pr) ].
Proof. reflexivity. Qed.

Lemma render_pass_uploads (pr vw : mat44 T) (p : vec3 T) :
  uploads "model" (render_pass pr vw p)
  = [ (prog_bg, identity); (prog_disk, identity); (prog_ring, identity);
      (prog_bh, identity); (prog_star, from_translation p) ]
  /\ uploads "view" (render_pass pr vw p) = map (fun q => (q, vw)) all_programs
  /\ uploads "proj" (render_pass pr vw p) = map (fun q => (q, pr)) all_programs.
Proof. repeat split. Qed.

(** The draw calls of a whole run of the loop are the five layers, in
    order, once per iteration executed. *)
Lemma main_loop_draws (batches : list (list event)) (s : loop_state T) :
  exists n : nat,
    (n <= List.length batches)%nat
    /\ draws (snd (main_loop batches s)) = List.concat (repeat layer_order n).
Proof.
  revert s.
  induction batches as [ | evs rest IH ]; intros s; cbn [main_loop].
  - exists 0%nat. split; [ apply Nat.le_refl | reflexivity ].
  - destruct (running s).
    + pose proof (frame_trace evs s) as Ht.
      destruct (frame evs s) as [ s1 t1 ]. cbn [snd fst] in Ht.
      destruct (IH s1) as (n & Hn & Hd).
      destruct (main_loop rest s1) as [ s2 t2 ]. cbn [snd] in *.
      exists (S n). split; [ cbn [List.length]; lia | ].
      rewrite draws_app, Hd, Ht, render_pass_draws. reflexivity.
    + exists 0%nat. split; [ cbn [List.length]; lia | reflexivity ].
Qed.
End RenderPass.

(** C5: every iteration of the loop issues exactly five draw calls, in
    the order background, disk, ring, black hole, star, whatever the
    events and the state; a run of the loop repeats that sequence once per
    iteration. *)
Theorem render_order :
  forall (T : Type) (S : Scalar T) (P : Pyrr T),
    (forall (evs : list event) (s : loop_state T),
        draws (snd (frame evs s)) = [ background; disk; ring; blackhole; star ]
        /\ List.length (draws (snd (frame evs s))) = 5%nat)
    /\ (forall (batches : list (list event)) (s : loop_state T),
          exists n : nat,
            (n <= List.length batches)%nat
            /\ draws (snd (main_loop batches s))
               = List.concat (repeat [ background; disk; ring; blackhole; star ] n)).
Proof.
  intros T S P. split.
  - intros evs s. rewrite frame_trace, render_pass_draws. split; reflexivity.
  - intros batches s. apply main_loop_draws.
Qed.

(** C6: in every iteration, when a layer is drawn its program holds the
    identity as model matrix for the background, the disk, the ring and
    the black hole, and the translation to the star's position after this
    iteration's physics update for the star; all five hold the same view
    matrix and the same projection matrix.  The uniforms left by earlier
    frames play no part. *)
Theorem layer_matrices :
  forall (T : Type) (S : Scalar T) (P : Pyrr T)
         (evs : list event) (s : loop_state T) (u : uniforms),
    let s' := fst (frame evs s) in
    replay u (snd (frame evs s))
    = [ mk_drawn background (Some identity) (Some (view s')) (Some (proj s));
        mk_drawn disk (Some identity) (Some (view s')) (Some (proj s));
        mk_drawn ring (Some identity) (Some (view s')) (Some (proj s));
        mk_drawn blackhole (Some identity) (Some (view s')) (Some (proj s));
        mk_drawn star (Some (from_translation (star_pos (body s'))))
                 (Some (view s')) (Some (proj s)) ]
    /\ body s' = physics_update (body s)
    /\ proj s' = proj s
    /\ uploads "model" (snd (frame evs s))
       = [ (prog_bg, identity); (prog_disk, identity); (prog_ring, identity);
           (prog_bh, identity);
           (prog_star, from_translation (star_pos (physics_update (body s)))) ]
    /\ uploads "view" (snd (frame evs s)) = map (fun q => (q, view s')) all_programs
    /\ uploads "proj" (snd (frame evs s)) = map (fun q => (q, proj s)) all_programs.
Proof.
  intros T S P evs s u s'. subst s'.
  pose proof (frame_view evs s) as Hv.
  pose proof (frame_body evs s) as Hb.
  assert (Hp : proj (fst (frame evs s)) = proj s).
  { unfold frame.
    destruct (handle_events evs (running s, cam s)) as [ b c ]. reflexivity. }
  rewrite frame_trace, <- Hv.
  destruct (render_pass_uploads (proj s) (view (fst (frame evs s)))
                                (star_pos (body (fst (frame evs s)))))
    as (Hm & Hvw & Hpr).
  split; [ apply render_pass_replay | ].
  split; [ exact Hb | ].
  split; [ exact Hp | ].
  split; [ rewrite <- Hb; exact Hm | ].
  split; assumption.
Qed.

(** C7: the view matrix an iteration renders with is
    [look_at(position, position + front, up)] of the camera pose left by
    this iteration's events; it is the one stored for the next iteration,
    and the matrix stored by the previous iteration is not used. *)
Theorem view_recomputed :
  forall (T : Type) (S : Scalar T) (P : Pyrr T)
         (evs : list event) (s : loop_state T),
    let c := snd (handle_events evs (running s, cam s)) in
    let v := look_at (camera_pos c) (vadd (camera_pos c) (camera_front c)) (camera_up c) in
    cam (fst (frame evs s)) = c
    /\ view (fst (frame evs s)) = v
    /\ uploads "view" (snd (frame evs s)) = map (fun q => (q, v)) all_programs
    /\ (forall stale : mat44 T,
          frame evs (mk_loop (running s) (cam s) (body s) (proj s) stale) = frame evs s).
Proof.
  intros T S P evs s c v.
  assert (Hc : cam (fst (frame evs s)) = c) by apply frame_cam.
  assert (Hv : view (fst (frame evs s)) = v).
  { rewrite frame_view, Hc. reflexivity. }
  split; [ exact Hc | ].
  split; [ exact Hv | ].
  split.
  - rewrite frame_trace, <- frame_view, Hv.
    apply render_pass_uploads.
  - intros stale. reflexivity.
Qed.

(** ** Start-up *)

Section StartupFacts.
Import Startup.

Lemma create_disk_ring_unbound :
  mem "create_disk" module_globals = false
  /\ mem "create_ring" module_globals = false
  /\ mem "create_disk" main_locals = false
  /\ mem "create_ring" main_locals = false.
Proof. repeat split. Qed.

(** Loading a name that is bound nowhere raises [NameError]. *)
Lemma load_unbound (builtins bound : list string) (x : string) :
  mem x main_locals = false ->
  mem x module_globals = false ->
  mem x builtins = false ->
  load builtins bound x = Some (NameError x).
Proof.
  intros Hl Hg Hb. unfold load. now rewrite Hl, Hg, Hb.
Qed.

Lemma load_all_resolvable (builtins bound xs : list string) :
  forallb (resolvable bound) xs = true -> load_all builtins bound xs = None.
Proof.
  induction xs as [ | x xs IH ]; cbn [forallb load_all]; [ reflexivity | ].
  intros Hx. apply andb_prop in Hx. destruct Hx as [ Hx Hxs ].
  unfold resolvable in Hx. unfold load.
  destruct (mem x main_locals).
  - rewrite Hx. now apply IH.
  - rewrite Hx. cbn [orb]. now apply IH.
Qed.

Lemma run_resolvable (builtins : list string) (returns : nat -> bool)
    (bound : list string) (st : stmt) (p : list stmt) :
  forallb (resolvable bound) (loads st) = true ->
  run builtins returns bound (st :: p)
  = if negb (calls st) || returns (line st)
    then run builtins returns (stores st ++ bound) p
    else inl (LibraryError (line st), line st).
Proof.
  intros Hx. cbn [run]. now rewrite load_all_resolvable.
Qed.

Lemma run_unbound (builtins : list string) (returns : nat -> bool)
    (bound : list string) (l : nat) (x : string) (xs ss : list string) (c : bool)
    (p : list stmt) :
  mem x main_locals = false ->
  mem x module_globals = false ->
  mem x builtins = false ->
  run builtins returns bound (mk_stmt l (x :: xs) c ss :: p) = inl (NameError x, l).
Proof.
  intros Hl Hg Hb. cbn [run loads load_all line].
  now rewrite load_unbound.
Qed.

Ltac run_line :=
  rewrite run_resolvable by reflexivity; cbn [line calls stores app negb orb].

(** The prelude never completes: whatever the library calls do, it stops
    with an exception at line 167 at the latest. *)
Lemma prelude_raises (builtins : list string) (returns : nat -> bool) :
  mem "create_disk" builtins = false ->
  exists (e : exn) (l : nat),
    run builtins returns [] prelude = inl (e, l) /\ (l <= 167)%nat.
Proof.
  intros Hb. unfold prelude.
  do 5 (run_line;
        try match goal with
            | |- context [ if returns ?l then _ else _ ] =>
                destruct (returns l);
                [ | eexists; eexists; split; [ reflexivity | lia ] ]
            end).
  rewrite run_unbound by (reflexivity || assumption).
  eexists; eexists; split; [ reflexivity | lia ].
Qed.

Lemma prelude_NameError (builtins : list string) (returns : nat -> bool) :
  mem "create_disk" builtins = false ->
  (forall l : nat, (l < 167)%nat -> returns l = true) ->
  run builtins returns [] prelude = inl (NameError "create_disk", 167%nat).
Proof.
  intros Hb Hret. unfold prelude.
  do 5 (run_line; try rewrite Hret by lia).
  now rewrite run_unbound by (reflexivity || assumption).
Qed.

(** Even with [create_disk] and [create_ring] defined the prelude would
    not complete: [main] assigns [camera_pos] (lines 183-189) without
    declaring it global, so line 173 reads a local that is not bound. *)
Lemma prelude_unbound_local :
  run python_builtins (fun _ => true) []
      (filter (fun st => negb (Nat.eqb (line st) 167 || Nat.eqb (line st) 168)) prelude)
  = inl (UnboundLocalError "camera_pos", 173%nat).
Proof. reflexivity. Qed.
End StartupFacts.

(** C9: [create_disk] and [create_ring] are bound nowhere (not in the
    module, not in [main], and, as assumed of the interpreter, not among
    the builtins), so a call of [main] never reaches its loop and issues
    no operation: it ends with an exception at line 167 at the latest,
    and when the calls of lines 160-166 return normally that exception is
    [NameError] for [create_disk].  Line 168 would raise the same for
    [create_ring]. *)
Theorem main_raises_NameError :
  forall (builtins : list string) (returns : nat -> bool),
    Startup.mem "create_disk" builtins = false ->
    Startup.mem "create_ring" builtins = false ->
    (forall (T : Type) (S : Scalar T) (P : Pyrr T) (batches : list (list event)),
        exists (e : Startup.exn) (l : nat),
          Startup.main builtins returns batches = Startup.raised (T := T) e l
          /\ (l <= 167)%nat)
    /\ ((forall l : nat, (l < 167)%nat -> returns l = true) ->
        forall (T : Type) (S : Scalar T) (P : Pyrr T) (batches : list (list event)),
          Startup.main builtins returns batches
          = Startup.raised (T := T) (Startup.NameError "create_disk") 167)
    /\ (forall bound : list string,
          Startup.load builtins bound "create_disk"
            = Some (Startup.NameError "create_disk")
          /\ Startup.load builtins bound "create_ring"
            = Some (Startup.NameError "create_ring")).
Proof.
  intros builtins returns Hd Hr.
  split; [ | split ].
  - intros T S P batches.
    destruct (prelude_raises builtins returns Hd) as (e & l & He & Hl).
    exists e, l. unfold Startup.main. rewrite He. split; [ reflexivity | exact Hl ].
  - intros Hret T S P batches.
    unfold Startup.main. rewrite (prelude_NameError builtins returns Hd Hret).
    reflexivity.
  - intros bound. split; now apply load_unbound.
Qed.

(** The call with Python's builtins, every library call returning. *)
Lemma main_raises_NameError_witness :
  Startup.mem "create_disk" Startup.python_builtins = false
  /\ Startup.mem "create_ring" Startup.python_builtins = false
  /\ (forall l : nat, (l < 167)%nat -> (fun _ : nat => true) l = true)
  /\ (forall (T : Type) (S : Scalar T) (P : Pyrr T) (batches : list (list event)),
        Startup.main Startup.python_builtins (fun _ => true) batches
        = Startup.raised (T := T) (Startup.NameError "create_disk") 167).
Proof.
  split; [ reflexivity | ].
  split; [ reflexivity | ].
  split; [ intros l Hl; reflexivity | ].
  exact (proj1 (proj2 (main_raises_NameError Startup.python_builtins (fun _ => true)
                         eq_refl eq_refl))
               (fun l Hl => eq_refl)).
Defined.

(** * Further properties *)

(** ** Start-up: the unbound local *)

Section StartupLocals.
Import Startup.

Lemma run_cons (builtins : list string) (returns : nat -> bool)
    (bound : list string) (st : stmt) (p : list stmt) :
  run builtins returns bound (st :: p)
  = match load_all builtins bound (loads st) with
    | Some e => inl (e, line st)
    | None =>
        if negb (calls st) || returns (line st)
        then run builtins returns (stores st ++ bound) p
        else inl (LibraryError (line st), line st)
    end.
Proof. reflexivity. Qed.

Lemma load_global (builtins bound : list string) (x : string) :
  mem x main_locals = false -> mem x module_globals = true ->
  load builtins bound x = None.
Proof. intros Hl Hg. unfold load. now rewrite Hl, Hg. Qed.

Lemma load_builtin (builtins bound : list string) (x : string) :
  mem x main_locals = false -> mem x builtins = true ->
  load builtins bound x = None.
Proof.
  intros Hl Hb. unfold load. rewrite Hl, Hb. now rewrite orb_true_r.
Qed.

Lemma load_local (builtins bound : list string) (x : string) :
  mem x main_locals = true -> mem x bound = true ->
  load builtins bound x = None.
Proof. intros Hl Hb. unfold load. now rewrite Hl, Hb. Qed.

(** Reading a local of [main] that no statement has bound yet. *)
Lemma load_unbound_local (builtins bound : list string) (x : string) :
  mem x main_locals = true -> mem x bound = false ->
  load builtins bound x = Some (UnboundLocalError x).
Proof. intros Hl Hb. unfold load. now rewrite Hl, Hb. Qed.

Ltac step_stmt :=
  rewrite run_cons;
  cbn [loads load_all line calls stores negb orb];
  repeat first
    [ rewrite load_global by reflexivity
    | rewrite load_local by reflexivity
    | rewrite load_builtin by (reflexivity || assumption)
    | rewrite load_unbound by (reflexivity || assumption)
    | rewrite load_unbound_local by reflexivity ];
  cbn [app].

Ltac raised_by l := eexists; exists l; split; [ reflexivity | lia ].

Ltac step_or_raise :=
  step_stmt;
  try match goal with
      | |- context [ if ?r ?l then _ else _ ] =>
          destruct (r l); [ | raised_by l ]
      end.

(** Whatever the builtins hold and whatever the library calls do, the
    prelude ends with an exception, at line 173 at the latest. *)
Lemma prelude_never_completes (builtins : list string) (returns : nat -> bool) :
  exists (e : exn) (l : nat),
    run builtins returns [] prelude = inl (e, l) /\ (l <= 173)%nat.
Proof.
  destruct (mem "create_disk" builtins) eqn:Hd.
  2:{ destruct (prelude_raises builtins returns Hd) as (e & l & He & Hl).
      exists e, l. split; [ exact He | lia ]. }
  unfold prelude.
  do 6 step_or_raise.
  destruct (mem "create_ring" builtins) eqn:Hr.
  - do 3 step_or_raise.
    step_stmt. raised_by 173%nat.
  - step_stmt. raised_by 168%nat.
Qed.

Lemma prelude_UnboundLocalError (builtins : list string) (returns : nat -> bool) :
  mem "create_disk" builtins = true ->
  mem "create_ring" builtins = true ->
  (forall l : nat, returns l = true) ->
  run builtins returns [] prelude = inl (UnboundLocalError "camera_pos", 173%nat).
Proof.
  intros Hd Hr Hret. unfold prelude.
  do 9 (step_stmt; try rewrite Hret).
  step_stmt. reflexivity.
Qed.
End StartupLocals.

(** X1: [main] cannot reach its loop even when [create_disk] and
    [create_ring] are made available.  For every content of the builtins
    and every behaviour of the library calls it ends with an exception at
    line 173 at the latest; and when both helpers resolve and every call
    returns, line 173 raises [UnboundLocalError] for [camera_pos], which
    lines 183-189 make a local of [main]. *)
Theorem main_never_reaches_loop :
  forall (builtins : list string) (returns : nat -> bool),
    (forall (T : Type) (S : Scalar T) (P : Pyrr T) (batches : list (list event)),
        exists (e : Startup.exn) (l : nat),
          Startup.main builtins returns batches = Startup.raised (T := T) e l
          /\ (l <= 173)%nat)
    /\ (Startup.mem "create_disk" builtins = true ->
        Startup.mem "create_ring" builtins = true ->
        (forall l : nat, returns l = true) ->
        forall (T : Type) (S : Scalar T) (P : Pyrr T) (batches : list (list event)),
          Startup.main builtins returns batches
          = Startup.raised (T := T) (Startup.UnboundLocalError "camera_pos") 173).
Proof.
  intros builtins returns. split.
  - intros T S P batches.
    destruct (prelude_never_completes builtins returns) as (e & l & He & Hl).
    exists e, l. unfold Startup.main. rewrite He. split; [ reflexivity | exact Hl ].
  - intros Hd Hr Hret T S P batches.
    unfold Startup.main.
    now rewrite (prelude_UnboundLocalError builtins returns Hd Hr Hret).
Qed.

(** The call with the helpers supplied through the builtins. *)
Lemma main_never_reaches_loop_witness :
  Startup.mem "create_disk" builtins_with_helpers = true
  /\ Startup.mem "create_ring" builtins_with_helpers = true
  /\ (forall l : nat, (fun _ : nat => true) l = true)
  /\ (forall (T : Type) (S : Scalar T) (P : Pyrr T) (batches : list (list event)),
        Startup.main builtins_with_helpers (fun _ => true) batches
        = Startup.raised (T := T) (Startup.UnboundLocalError "camera_pos") 173).
Proof.
  split; [ reflexivity | ].
  split; [ reflexivity | ].
  split; [ intros l; reflexivity | ].
  exact (proj2 (main_never_reaches_loop builtins_with_helpers (fun _ => true))
               eq_refl eq_refl (fun l => eq_refl)).
Defined.

(** ** Runs of the loop *)

Section LoopRun.
Context {T : Type} `{Scalar T} `{Pyrr T}.

Lemma frames_app (t1 t2 : list (gl_op T)) : frames (t1 ++ t2) = (frames t1 + frames t2)%nat.
Proof.
  induction t1 as [ | op t1 IH ]; [ reflexivity | ].
  destruct op; cbn [app frames]; rewrite IH; reflexivity.
Qed.

Lemma buffers_created_app (t1 t2 : list (gl_op T)) :
  buffers_created (t1 ++ t2) = (buffers_created t1 + buffers_created t2)%nat.
Proof.
  induction t1 as [ | op t1 IH ]; [ reflexivity | ].
  destruct op; cbn [app buffers_created]; rewrite IH; reflexivity.
Qed.

Lemma vertex_arrays_created_app (t1 t2 : list (gl_op T)) :
  vertex_arrays_created (t1 ++ t2)
  = (vertex_arrays_created t1 + vertex_arrays_created t2)%nat.
Proof.
  induction t1 as [ | op t1 IH ]; [ reflexivity | ].
  destruct op; cbn [app vertex_arrays_created]; rewrite IH; reflexivity.
Qed.

Lemma handle_events_running (evs : list event) (b : bool) (c : camera T) :
  fst (handle_events evs (b, c)) = b && negb (has_quit evs).
Proof.
  unfold handle_events, has_quit. revert b c.
  induction evs as [ | ev evs IH ]; intros b c; cbn [fold_left existsb].
  - now rewrite andb_true_r.
  - unfold handle_event at 2. cbn [fst snd].
    rewrite IH. destruct ev; cbn [is_quit orb negb]; try reflexivity.
    now rewrite andb_false_r.
Qed.

Lemma frame_running (evs : list event) (s : loop_state T) :
  running (fst (frame evs s)) = running s && negb (has_quit evs).
Proof.
  pose proof (handle_events_running evs (running s) (cam s)) as Hr.
  unfold frame.
  destruct (handle_events evs (running s, cam s)) as [ b c ]. exact Hr.
Qed.

Lemma frame_proj (evs : list event) (s : loop_state T) :
  proj (fst (frame evs s)) = proj s.
Proof.
  unfold frame.
  destruct (handle_events evs (running s, cam s)) as [ b c ]. reflexivity.
Qed.

(** One step of the loop, written with projections. *)
Lemma main_loop_cons (evs : list event) (rest : list (list event)) (s : loop_state T) :
  main_loop (evs :: rest) s
  = if running s
    then (fst (main_loop rest (fst (frame evs s))),
          snd (frame evs s) ++ snd (main_loop rest (fst (frame evs s))))
    else (s, []).
Proof.
  cbn [main_loop]. destruct (running s); [ | reflexivity ].
  destruct (frame evs s) as [ s1 t1 ]. cbn [fst snd].
  destruct (main_loop rest s1) as [ s2 t2 ]. reflexivity.
Qed.

Lemma main_loop_stopped (batches : list (list event)) (s : loop_state T) :
  running s = false -> main_loop batches s = (s, []).
Proof.
  intros Hs. destruct batches as [ | evs rest ]; [ reflexivity | ].
  rewrite main_loop_cons, Hs. reflexivity.
Qed.

(** Running the loop on two lists of batches in a row. *)
Lemma main_loop_app (pre rest : list (list event)) (s : loop_state T) :
  main_loop (pre ++ rest) s
  = (fst (main_loop rest (fst (main_loop pre s))),
     snd (main_loop pre s) ++ snd (main_loop rest (fst (main_loop pre s)))).
Proof.
  revert s. induction pre as [ | evs pre IH ]; intros s.
  - cbn [app main_loop fst snd]. now destruct (main_loop rest s).
  - cbn [app]. rewrite !main_loop_cons.
    destruct (running s) eqn:Hs; cbn [fst snd].
    + rewrite IH. cbn [fst snd]. now rewrite app_assoc.
    + rewrite (main_loop_stopped rest s Hs). reflexivity.
Qed.

Lemma main_loop_no_quit (batches : list (list event)) (s : loop_state T) :
  Forall (fun evs => has_quit evs = false) batches ->
  running s = true ->
  running (fst (main_loop batches s)) = true
  /\ frames (snd (main_loop batches s)) = List.length batches.
Proof.
  intros Hq. revert s.
  induction Hq as [ | evs rest Hevs Hrest IH ]; intros s Hs.
  - split; [ exact Hs | reflexivity ].
  - rewrite main_loop_cons, Hs. cbn [fst snd].
    assert (Hs1 : running (fst (frame evs s)) = true)
      by (rewrite frame_running, Hs, Hevs; reflexivity).
    destruct (IH _ Hs1) as [ IHr IHf ].
    split; [ exact IHr | ].
    rewrite frames_app, IHf, frame_trace. reflexivity.
Qed.

Lemma main_loop_body (batches : list (list event)) (s : loop_state T) :
  body (fst (main_loop batches s))
  = physics_steps (frames (snd (main_loop batches s))) (body s).
Proof.
  revert s. induction batches as [ | evs rest IH ]; intros s.
  - reflexivity.
  - rewrite main_loop_cons. destruct (running s); [ | reflexivity ].
    cbn [fst snd]. rewrite frames_app, IH, frame_body, frame_trace. reflexivity.
Qed.

Lemma main_loop_frames_le (batches : list (list event)) (s : loop_state T) :
  (frames (snd (main_loop batches s)) <= List.length batches)%nat.
Proof.
  revert s. induction batches as [ | evs rest IH ]; intros s.
  - apply Nat.le_refl.
  - rewrite main_loop_cons. destruct (running s); cbn [snd frames List.length]; [ | lia ].
    rewrite frames_app, frame_trace.
    specialize (IH (fst (frame evs s))).
    change (frames (render_pass _ _ _)) with 1%nat. lia.
Qed.

Lemma main_loop_allocations (batches : list (list event)) (s : loop_state T) :
  buffers_created (snd (main_loop batches s)) = frames (snd (main_loop batches s))
  /\ vertex_arrays_created (snd (main_loop batches s))
     = frames (snd (main_loop batches s)).
Proof.
  revert s. induction batches as [ | evs rest IH ]; intros s.
  - split; reflexivity.
  - rewrite main_loop_cons. destruct (running s); [ | split; reflexivity ].
    cbn [fst snd].
    destruct (IH (fst (frame evs s))) as [ IHb IHv ].
    rewrite buffers_created_app, vertex_arrays_created_app, frames_app, IHb, IHv.
    rewrite frame_trace. split; reflexivity.
Qed.

Lemma main_loop_proj (batches : list (list event)) (s : loop_state T) :
  proj (fst (main_loop batches s)) = proj s.
Proof.
  revert s. induction batches as [ | evs rest IH ]; intros s.
  - reflexivity.
  - rewrite main_loop_cons. destruct (running s); [ | reflexivity ].
    cbn [fst]. now rewrite IH, frame_proj.
Qed.

Lemma main_loop_view (batches : list (list event)) (s : loop_state T) :
  main_loop batches s = (s, [])
  \/ view (fst (main_loop batches s)) = view_of (cam (fst (main_loop batches s))).
Proof.
  revert s. induction batches as [ | evs rest IH ]; intros s.
  - left. reflexivity.
  - rewrite main_loop_cons. destruct (running s); [ | left; reflexivity ].
    right. cbn [fst].
    destruct (IH (fst (frame evs s))) as [ E | E ].
    + rewrite E. cbn [fst]. apply frame_view.
    + exact E.
Qed.

Lemma handle_events_ignored (evs : list event) (b : bool) (c : camera T) :
  forallb ignored evs = true -> handle_events evs (b, c) = (b, c).
Proof.
  unfold handle_events.
  induction evs as [ | ev evs IH ]; cbn [forallb fold_left]; [ reflexivity | ].
  intros Hi. apply andb_prop in Hi. destruct Hi as [ Hev Hevs ].
  destruct ev as [ | [ | | | | code ] | ty ]; try discriminate Hev; now apply IH.
Qed.
End LoopRun.

(** X2: the loop runs up to and including the first batch that holds a
    QUIT event.  That iteration is completed, with its physics update and
    its render pass, and leaves [running] false; the batches after it are
    never consumed.  Without any QUIT every batch gets its iteration and
    [running] stays true. *)
Theorem quit_ends_loop :
  forall (pre : list (list event)) (q : list event) (post : list (list event)),
    Forall (fun evs => has_quit evs = false) pre ->
    (forall (T : Type) (S : Scalar T) (P : Pyrr T)
            (c : camera T) (b : star_state T) (pr vw : mat44 T),
        running (fst (main_loop pre (mk_loop true c b pr vw))) = true
        /\ frames (snd (main_loop pre (mk_loop true c b pr vw))) = List.length pre)
    /\ (has_quit q = true ->
        forall (T : Type) (S : Scalar T) (P : Pyrr T)
               (c : camera T) (b : star_state T) (pr vw : mat44 T),
          running (fst (main_loop (pre ++ q :: post) (mk_loop true c b pr vw))) = false
          /\ frames (snd (main_loop (pre ++ q :: post) (mk_loop true c b pr vw)))
             = (List.length pre + 1)%nat
          /\ body (fst (main_loop (pre ++ q :: post) (mk_loop true c b pr vw)))
             = physics_steps (List.length pre + 1) b
          /\ main_loop (pre ++ q :: post) (mk_loop true c b pr vw)
             = main_loop (pre ++ [q]) (mk_loop true c b pr vw)).
Proof.
  intros pre q post Hpre. split.
  - intros T S P c b pr vw. now apply main_loop_no_quit.
  - intros Hq T S P c b pr vw.
    set (s := mk_loop true c b pr vw).
    destruct (main_loop_no_quit s Hpre eq_refl) as [ Hr Hf ].
    set (s1 := fst (main_loop pre s)) in *.
    assert (Hstop : running (fst (frame q s1)) = false)
      by (rewrite frame_running, Hr, Hq; reflexivity).
    assert (Hq1 : forall rest, main_loop (q :: rest) s1
                               = (fst (frame q s1), snd (frame q s1))).
    { intros rest. rewrite main_loop_cons, Hr.
      rewrite (main_loop_stopped rest _ Hstop). cbn [fst snd].
      now rewrite app_nil_r. }
    assert (E : forall rest, main_loop (pre ++ q :: rest) s
                             = (fst (frame q s1), snd (main_loop pre s) ++ snd (frame q s1))).
    { intros rest. rewrite main_loop_app. fold s1. now rewrite Hq1. }
    split; [ rewrite E; exact Hstop | ].
    split; [ rewrite E; cbn [snd]; rewrite frames_app, Hf, frame_trace; reflexivity | ].
    split; [ | now rewrite !E ].
    rewrite main_loop_body, E. cbn [snd].
    rewrite frames_app, Hf, frame_trace. reflexivity.
Qed.

(** Two quiet iterations, then one in which the window is closed. *)
Lemma quit_ends_loop_witness :
  Forall (fun evs => has_quit evs = false) [ [ KEYDOWN K_w ]; [] ]
  /\ has_quit [ KEYDOWN K_a; QUIT; KEYDOWN K_d ] = true
  /\ (forall (T : Type) (S : Scalar T) (P : Pyrr T)
             (c : camera T) (b : star_state T) (pr vw : mat44 T),
        frames (snd (main_loop ([ [ KEYDOWN K_w ]; [] ]
                                  ++ [ KEYDOWN K_a; QUIT; KEYDOWN K_d ] :: [ [ KEYDOWN K_s ] ])
                               (mk_loop true c b pr vw)))
        = 3%nat).
Proof.
  assert (Hpre : Forall (fun evs => has_quit evs = false) [ [ KEYDOWN K_w ]; [] ])
    by (repeat constructor).
  split; [ exact Hpre | ].
  split; [ reflexivity | ].
  intros T S P c b pr vw.
  exact (proj1 (proj2 (proj2 (quit_ends_loop [ KEYDOWN K_a; QUIT; KEYDOWN K_d ]
                                             [ [ KEYDOWN K_s ] ] Hpre)
                             eq_refl T S P c b pr vw))).
Defined.

(** X3: the physics update runs exactly once per presented frame, whatever
    the events are: after a run of the loop the star is where that many
    updates take it from where it started, and the number of frames is at
    most the number of batches. *)
Theorem physics_once_per_frame :
  forall (T : Type) (S : Scalar T) (P : Pyrr T)
         (batches : list (list event)) (s : loop_state T),
    body (fst (main_loop batches s))
    = physics_steps (frames (snd (main_loop batches s))) (body s)
    /\ (frames (snd (main_loop batches s)) <= List.length batches)%nat
    /\ draws (snd (main_loop batches s))
       = List.concat (repeat layer_order (frames (snd (main_loop batches s)))).
Proof.
  intros T S P batches s.
  split; [ apply main_loop_body | ].
  split; [ apply main_loop_frames_le | ].
  revert s. induction batches as [ | evs rest IH ]; intros s.
  - reflexivity.
  - rewrite main_loop_cons. destruct (running s); [ | reflexivity ].
    cbn [fst snd]. rewrite draws_app, frames_app, IH, frame_trace. reflexivity.
Qed.

(** X4: every frame creates a new buffer and a new vertex array for the
    background (lines 10-11 run inside the loop), so a run of the loop
    has created as many of each as it has presented frames. *)
Theorem background_allocated_per_frame :
  forall (T : Type) (S : Scalar T) (P : Pyrr T)
         (batches : list (list event)) (s : loop_state T),
    buffers_created (snd (main_loop batches s)) = frames (snd (main_loop batches s))
    /\ vertex_arrays_created (snd (main_loop batches s))
       = frames (snd (main_loop batches s)).
Proof. intros T S P batches s. apply main_loop_allocations. Qed.

(** X5: at the start of the loop and after any run of it, the stored view
    matrix is the one of the stored camera pose, and the projection matrix
    is the one computed before the loop. *)
Theorem view_matches_camera :
  forall (T : Type) (S : Scalar T) (P : Pyrr T) (batches : list (list event)),
    view (fst (main_loop batches loop_state0))
    = view_of (cam (fst (main_loop batches loop_state0)))
    /\ proj (fst (main_loop batches loop_state0))
       = perspective_projection lit_45 (sdiv lit_800 lit_600) lit_0_1 lit_100
    /\ (forall s : loop_state T,
          proj (fst (main_loop batches s)) = proj s
          /\ (main_loop batches s = (s, [])
              \/ view (fst (main_loop batches s))
                 = view_of (cam (fst (main_loop batches s))))).
Proof.
  intros T S P batches.
  split.
  - destruct (main_loop_view batches loop_state0) as [ E | E ].
    + rewrite E. reflexivity.
    + exact E.
  - split; [ apply (main_loop_proj batches loop_state0) | ].
    intros s. split; [ apply main_loop_proj | apply main_loop_view ].
Qed.

(** X6: events that are neither QUIT nor a key-down of W, A, S or D are
    ignored: a batch made of them leaves [running] and the camera as they
    were, so the frame differs from an event-free one in nothing. *)
Theorem unrecognised_input_ignored :
  forall evs : list event,
    forallb ignored evs = true ->
    forall (T : Type) (S : Scalar T),
      (forall (b : bool) (c : camera T), handle_events evs (b, c) = (b, c))
      /\ (forall (P : Pyrr T) (s : loop_state T), frame evs s = frame [] s).
Proof.
  intros evs Hi T S. split.
  - intros b c. now apply handle_events_ignored.
  - intros P s. unfold frame.
    rewrite (handle_events_ignored evs (running s) (cam s) Hi). reflexivity.
Qed.

(** A mouse event and a press of the space bar. *)
Lemma unrecognised_input_ignored_witness :
  forallb ignored [ OTHER 1024; KEYDOWN (K_other 32) ] = true
  /\ (forall (T : Type) (S : Scalar T) (b : bool) (c : camera T),
        handle_events [ OTHER 1024; KEYDOWN (K_other 32) ] (b, c) = (b, c)).
Proof.
  split; [ reflexivity | ].
  intros T S.
  exact (proj1 (@unrecognised_input_ignored [ OTHER 1024; KEYDOWN (K_other 32) ]
                                            eq_refl T S)).
Defined.

(** ** Camera paths *)

Lemma presses_perm (k : key) (evs evs' : list event) :
  Permutation evs evs' -> presses k evs = presses k evs'.
Proof.
  induction 1 as [ | ev l l' Hp IH | x y l | l l' l'' Hp1 IH1 Hp2 IH2 ].
  - reflexivity.
  - destruct ev; cbn [presses]; now rewrite IH.
  - destruct x, y; cbn [presses]; lia.
  - now rewrite IH1.
Qed.

Section CameraPathReal.
Local Open Scope R_scope.

Lemma handle_events_pos_R (evs : list event) (b : bool) (c : camera R) :
  camera_pos (snd (handle_events evs (b, c)))
  = displaced (camera_pos c) (camera_front c) (camera_up c)
      (presses K_w evs) (presses K_s evs) (presses K_d evs) (presses K_a evs).
Proof.
  unfold handle_events. revert b c.
  induction evs as [ | ev evs IH ]; intros b c.
  - cbn [fold_left snd presses]. unfold displaced.
    destruct c as [ [ px py pz ] [ fx fy fz ] [ ux uy uz ] ].
    unfold vadd, smul_v, cross; cbn [camera_pos camera_front camera_up vx vy vz sadd smul ssub Scalar_R].
    change (INR 0) with 0. f_equal; ring.
  - cbn [fold_left].
    destruct (handle_event (b, c) ev) as [ b' c' ] eqn:E.
    rewrite IH.
    destruct (handle_event_axes (b, c) ev) as [ Hf Hu ].
    rewrite E in Hf, Hu. cbn [snd] in Hf, Hu. rewrite Hf, Hu.
    assert (Ec : c' = snd (handle_event (b, c) ev)) by now rewrite E.
    clear E Hf Hu IH.
    destruct c as [ [ px py pz ] [ fx fy fz ] [ ux uy uz ] ].
    destruct ev as [ | [ | | | | code ] | ty ]; subst c';
      cbn [handle_event snd fst on_keydown is_key set_camera_pos
           camera_pos camera_front camera_up presses Nat.add];
      unfold displaced, vadd, vsub, vmul_s, smul_v, cross;
      cbn [vx vy vz sadd smul ssub Scalar_R lit_0_5];
      rewrite ?S_INR; f_equal; field.
Qed.

Lemma handle_events_perm_R (evs evs' : list event) (b : bool) (c : camera R) :
  Permutation evs evs' ->
  snd (handle_events evs (b, c)) = snd (handle_events evs' (b, c)).
Proof.
  intros Hp.
  pose proof (handle_events_pos_R evs b c) as H1.
  pose proof (handle_events_pos_R evs' b c) as H2.
  rewrite <- !(presses_perm _ Hp) in H2.
  destruct (handle_events_axes evs (b, c)) as [ Hf1 Hu1 ].
  destruct (handle_events_axes evs' (b, c)) as [ Hf2 Hu2 ].
  cbn [snd] in Hf1, Hu1, Hf2, Hu2.
  destruct (snd (handle_events evs (b, c))) as [ p1 f1 u1 ].
  destruct (snd (handle_events evs' (b, c))) as [ p2 f2 u2 ].
  cbn [camera_pos camera_front camera_up] in *.
  congruence.
Qed.
End CameraPathReal.

(** X7: the camera position depends on the key presses only through
    their counts.  In exact arithmetic, from any pose, it is the start
    moved by [0.5 * (#W - #S)] along front and [0.5 * (#D - #A)] along
    [cross(front, up)], so reordering the events of a batch changes
    nothing; in binary64 the same independence of the order holds for
    every sequence of up to six presses from the initial pose. *)
Theorem camera_path_by_counts :
  (forall (evs : list event) (b : bool) (c : camera R),
      camera_pos (snd (handle_events evs (b, c)))
      = displaced (camera_pos c) (camera_front c) (camera_up c)
          (presses K_w evs) (presses K_s evs) (presses K_d evs) (presses K_a evs))
  /\ (forall (evs evs' : list event) (b : bool) (c : camera R),
        Permutation evs evs' ->
        snd (handle_events evs (b, c)) = snd (handle_events evs' (b, c)))
  /\ forallb (fun n => forallb order_irrelevant (key_sequences n)) (seq 0 7) = true.
Proof.
  split; [ exact handle_events_pos_R | ].
  split; [ exact handle_events_perm_R | ].
  vm_compute. reflexivity.
Qed.

(** W then A against A then W, from the initial pose. *)
Lemma camera_path_by_counts_witness :
  Permutation [ KEYDOWN K_w; KEYDOWN K_a ] [ KEYDOWN K_a; KEYDOWN K_w ]
  /\ snd (handle_events [ KEYDOWN K_w; KEYDOWN K_a ] (true, (camera0 : camera R)))
     = snd (handle_events [ KEYDOWN K_a; KEYDOWN K_w ] (true, camera0)).
Proof.
  assert (Hp : Permutation [ KEYDOWN K_w; KEYDOWN K_a ] [ KEYDOWN K_a; KEYDOWN K_w ])
    by apply perm_swap.
  split; [ exact Hp | ].
  exact (proj1 (proj2 camera_path_by_counts) _ _ true camera0 Hp).
Defined.

(** The camera height in binary64. *)
Lemma camera_height_float (c : camera float) :
  camera_reachable c -> vy (camera_pos c) = 0%float.
Proof.
  induction 1 as [ | b c ev Hc IH ].
  - reflexivity.
  - destruct (camera_reachable_axes Hc) as [ Hf Hu ].
    destruct c as [ [ px py pz ] f u ].
    cbn [camera_pos camera_front camera_up vy] in IH, Hf, Hu. subst py f u.
    destruct ev as [ | [ | | | | code ] | ty ]; vm_compute; reflexivity.
Qed.

Lemma camera_height_R (c : camera R) :
  camera_reachable c -> vy (camera_pos c) = 0%R.
Proof.
  induction 1 as [ | b c ev Hc IH ].
  - reflexivity.
  - destruct (camera_reachable_axes Hc) as [ Hf Hu ].
    destruct c as [ [ px py pz ] f u ].
    cbn [camera_pos camera_front camera_up vy] in IH, Hf, Hu. subst py f u.
    destruct ev as [ | [ | | | | code ] | ty ];
      cbn [handle_event snd fst on_keydown is_key set_camera_pos camera_pos
           camera_front camera_up vy];
      try reflexivity;
      rewrite ?cross_axes_R, ?camera_front0_R;
      unfold vadd, vsub, vmul_s; cbn [vx vy vz sadd ssub smul Scalar_R lit_0_5];
      lra.
Qed.

(** X8: the camera cannot leave the plane [y = 0].  W and S move it along
    z, A and D along x, and there is no command for the third direction:
    at every reachable pose the y coordinate of the position is the 0 it
    starts with, in binary64 and in exact arithmetic. *)
Theorem camera_height_fixed :
  (forall c : camera float, camera_reachable c -> vy (camera_pos c) = 0%float)
  /\ (forall c : camera R, camera_reachable c -> vy (camera_pos c) = 0%R).
Proof. split; [ exact camera_height_float | exact camera_height_R ]. Qed.

(** The pose after a press of A on the initial pose. *)
Lemma camera_height_fixed_witness :
  camera_reachable (on_keydown K_a (camera0 : camera float))
  /\ vy (camera_pos (on_keydown K_a (camera0 : camera float))) = 0%float.
Proof.
  assert (Hc : camera_reachable (on_keydown K_a (camera0 : camera float))).
  { exact (reach_event true (KEYDOWN K_a) reach_start). }
  split; [ exact Hc | ].
  exact (proj1 camera_height_fixed _ Hc).
Defined.

(** ** More on the physics update *)

Section AngularMomentum.
Local Open Scope R_scope.

Lemma angular_momentum_update (s : star_state R) :
  0 < norm (star_pos s) ->
  angular_momentum (physics_update s) = angular_momentum s.
Proof.
  intros Hr.
  unfold angular_momentum, physics_update. cbn [star_pos star_vel].
  rewrite (acc_radial _ Hr).
  generalize (- (g * blackhole_mass / (norm (star_pos s) * norm (star_pos s) * norm (star_pos s)))).
  intros k.
  destruct s as [ [ px py pz ] [ wx wy wz ] ].
  unfold cross, vadd, vmul_s, smul_v.
  cbn [star_pos star_vel vx vy vz sadd ssub smul Scalar_R].
  generalize (@lit_0_01 R Scalar_R). intros h.
  f_equal; ring.
Qed.

Lemma angular_momentum_steps (n : nat) (s : star_state R) :
  (forall k : nat, (k < n)%nat -> 0 < radius (physics_steps k s)) ->
  angular_momentum (physics_steps n s) = angular_momentum s.
Proof.
  induction n as [ | n IH ]; intros Hr.
  - reflexivity.
  - rewrite physics_steps_succ, angular_momentum_update.
    + apply IH. intros k Hk. apply Hr. lia.
    + apply (Hr n). lia.
Qed.
End AngularMomentum.

(** X9: in exact arithmetic the update conserves the star's angular
    momentum [star_pos x star_vel] about the black hole: the velocity
    changes along the position only, and the position then moves along
    the new velocity.  It holds over any number of updates during which
    the star is not at distance zero. *)
Theorem angular_momentum_conserved :
  forall (n : nat) (s : star_state R),
    (forall k : nat, (k < n)%nat -> (0 < radius (physics_steps k s))%R) ->
    angular_momentum (physics_steps n s) = angular_momentum s.
Proof. exact angular_momentum_steps. Qed.

(** One update of a star at [(10, 0, 0)] moving along y. *)
Lemma angular_momentum_conserved_witness :
  (forall k : nat, (k < 1)%nat ->
     (0 < radius (physics_steps k (mk_star (mk3 10 0 0) (mk3 0 1 0))%R))%R)
  /\ angular_momentum (physics_steps 1 (mk_star (mk3 10 0 0) (mk3 0 1 0))%R)
     = angular_momentum (mk_star (mk3 10 0 0) (mk3 0 1 0))%R.
Proof.
  assert (Hr : forall k : nat, (k < 1)%nat ->
                 (0 < radius (physics_steps k (mk_star (mk3 10 0 0) (mk3 0 1 0))%R))%R).
  { intros k Hk. replace k with 0%nat by lia.
    unfold radius, norm, dot; cbn.
    replace (10 * 10 + 0 * 0 + 0 * 0)%R with (Rsqr 10) by (unfold Rsqr; ring).
    rewrite sqrt_Rsqr; lra. }
  split; [ exact Hr | ].
  exact (@angular_momentum_conserved 1 _ Hr).
Defined.

Section NaNFloat.
Local Open Scope float_scope.

Lemma add_nan_l (x : float) : nan + x = nan.
Proof.
  apply Prim2SF_inj. rewrite add_spec.
  change (Prim2SF nan) with S754_nan. reflexivity.
Qed.

Lemma mul_nan_l (x : float) : nan * x = nan.
Proof.
  apply Prim2SF_inj. rewrite mul_spec.
  change (Prim2SF nan) with S754_nan. reflexivity.
Qed.

Lemma mul_nan_r (x : float) : x * nan = nan.
Proof.
  apply Prim2SF_inj. rewrite mul_spec.
  change (Prim2SF nan) with S754_nan.
  unfold SF64mul, SFmul.
  destruct (Prim2SF x) as [ sx | sx | | sx mx ex ]; reflexivity.
Qed.

Lemma div_nan_r (x : float) : x / nan = nan.
Proof.
  apply Prim2SF_inj. rewrite div_spec.
  change (Prim2SF nan) with S754_nan.
  unfold SF64div, SFdiv.
  destruct (Prim2SF x) as [ sx | sx | | sx mx ex ]; reflexivity.
Qed.

(** A NaN coordinate makes the distance NaN. *)
Lemma norm_has_nan (p : vec3 float) : has_nan p -> norm p = nan.
Proof.
  intros Hp. destruct p as [ x y z ].
  unfold has_nan in Hp. cbn [vx vy vz] in Hp.
  unfold norm, dot. cbn [vx vy vz ssqrt sadd smul Scalar_float].
  assert (E : x * x + y * y + z * z = nan).
  { destruct Hp as [ -> | [ -> | -> ] ].
    - now rewrite mul_nan_l, !add_nan_l.
    - now rewrite mul_nan_l, add_nan_r, add_nan_l.
    - now rewrite mul_nan_l, add_nan_r. }
  rewrite E. reflexivity.
Qed.

Lemma acc_has_nan (p : vec3 float) : has_nan p -> acc p = nan_vec.
Proof.
  intros Hp. unfold acc. rewrite (norm_has_nan Hp).
  replace (sdiv (force nan) star_mass) with nan by (vm_compute; reflexivity).
  unfold smul_v, vdiv_s. cbn [vx vy vz sdiv smul Scalar_float].
  now rewrite !div_nan_r, !mul_nan_l.
Qed.

Lemma physics_update_pos_nan (s : star_state float) :
  has_nan (star_pos s) -> physics_update s = mk_star nan_vec nan_vec.
Proof.
  intros Hp. unfold physics_update. rewrite (acc_has_nan Hp).
  replace (vmul_s nan_vec lit_0_01) with nan_vec by (vm_compute; reflexivity).
  rewrite vadd_nan_r.
  replace (vmul_s nan_vec lit_0_01) with nan_vec by (vm_compute; reflexivity).
  now rewrite vadd_nan_r.
Qed.

Lemma physics_update_vel_nan (s : star_state float) :
  has_nan (star_vel s) -> has_nan (star_pos (physics_update s)).
Proof.
  intros Hv. unfold physics_update. cbn [star_pos].
  destruct s as [ [ px py pz ] [ wx wy wz ] ].
  unfold has_nan in *. cbn [star_vel star_pos vx vy vz] in *.
  unfold vadd, vmul_s. cbn [vx vy vz sadd smul Scalar_float].
  destruct Hv as [ -> | [ -> | -> ] ];
    [ left | right; left | right; right ];
    now rewrite add_nan_l, mul_nan_l, add_nan_r.
Qed.

Lemma physics_steps_nan (n : nat) :
  physics_steps n (mk_star nan_vec nan_vec) = mk_star nan_vec nan_vec.
Proof.
  induction n as [ | n IH ]; [ reflexivity | ].
  cbn [physics_steps].
  rewrite physics_update_pos_nan by (left; reflexivity).
  exact IH.
Qed.
End NaNFloat.

(** X10: in binary64 a NaN never leaves the star.  If a coordinate of the
    position is NaN, one update makes all six numbers NaN and every later
    update keeps them so; if a coordinate of the velocity is NaN the same
    holds from the second update on; in particular a star that is once at
    the origin is lost for the rest of the run. *)
Theorem nan_is_absorbing :
  (forall (s : star_state float) (n : nat),
      has_nan (star_pos s) ->
      physics_steps (S n) s = mk_star nan_vec nan_vec)
  /\ (forall (s : star_state float) (n : nat),
        has_nan (star_vel s) ->
        physics_steps (S (S n)) s = mk_star nan_vec nan_vec)
  /\ (forall (vel : vec3 float) (n : nat),
        physics_steps (S n) (mk_star (mk3 0 0 0)%float vel) = mk_star nan_vec nan_vec).
Proof.
  split; [ | split ].
  - intros s n Hp. cbn [physics_steps].
    rewrite (physics_update_pos_nan s Hp). apply physics_steps_nan.
  - intros s n Hv. cbn [physics_steps].
    rewrite (physics_update_pos_nan _ (physics_update_vel_nan s Hv)).
    apply physics_steps_nan.
  - intros vel n. cbn [physics_steps].
    rewrite physics_update_origin. apply physics_steps_nan.
Qed.

(** A position whose x coordinate is NaN. *)
Lemma nan_is_absorbing_witness :
  has_nan (star_pos (mk_star (mk3 nan 0 10)%float star_vel0))
  /\ physics_steps 3 (mk_star (mk3 nan 0 10)%float star_vel0) = mk_star nan_vec nan_vec.
Proof.
  assert (Hp : has_nan (star_pos (mk_star (mk3 nan 0 10)%float star_vel0)))
    by (left; reflexivity).
  split; [ exact Hp | ].
  exact (proj1 nan_is_absorbing _ 2%nat Hp).
Defined.

(** ** The meshes and the background shaders *)

Section MeshReal.
Local Open Scope R_scope.

Lemma lens_of_range (r : R) : 0 <= r -> 0 < lens_of r <= 1.
Proof.
  intros Hr. unfold lens_of.
  assert (Hc : 0 <= r * r * r) by (repeat apply Rmult_le_pos; assumption).
  assert (Hd : 0 < 1 + 20 * (r * r * r)) by lra.
  split.
  - apply Rdiv_lt_0_compat; lra.
  - apply Rmult_le_reg_r with (1 + 20 * (r * r * r)); [ exact Hd | ].
    replace (1 / (1 + 20 * (r * r * r)) * (1 + 20 * (r * r * r))) with 1
      by (field; lra).
    lra.
Qed.

Lemma cube_monotone (r1 r2 : R) : 0 <= r1 <= r2 -> r1 * r1 * r1 <= r2 * r2 * r2.
Proof.
  intros [ H1 H2 ].
  assert (r1 * r1 <= r2 * r2) by (apply Rmult_le_compat; lra).
  apply Rmult_le_compat; try lra.
  apply Rmult_le_pos; lra.
Qed.

Lemma lens_of_decreasing (r1 r2 : R) : 0 <= r1 <= r2 -> lens_of r2 <= lens_of r1.
Proof.
  intros Hr. pose proof (cube_monotone Hr) as Hc.
  assert (H1 : 0 <= r1 * r1 * r1) by (repeat apply Rmult_le_pos; lra).
  unfold lens_of, Rdiv. rewrite !Rmult_1_l.
  apply Rinv_le_contravar; lra.
Qed.

Lemma bg_radius_nonneg (u v : R) : 0 <= bg_radius u v.
Proof. unfold bg_radius. apply sqrt_pos. Qed.

Lemma bg_radius_sqr (u v : R) :
  bg_radius u v * bg_radius u v = (u - 0.5) * (u - 0.5) + (v - 0.5) * (v - 0.5).
Proof.
  unfold bg_radius. apply sqrt_sqrt.
  apply Rplus_le_le_0_compat; apply Rle_0_sqr.
Qed.

(** On the unit square the lens factor is at least 1/11. *)
Lemma lens_on_unit_square (u v : R) :
  0 <= u <= 1 -> 0 <= v <= 1 -> 1 / 11 <= lens_of (bg_radius u v).
Proof.
  intros Hu Hv.
  pose proof (bg_radius_nonneg u v) as H0.
  pose proof (bg_radius_sqr u v) as Hs.
  set (r := bg_radius u v) in *.
  assert (Hrr : r * r <= 0.5) by nra.
  assert (Hr1 : r <= 1) by nra.
  assert (Hc : r * r * r <= 0.5).
  { replace 0.5 with (0.5 * 1) by lra. apply Rmult_le_compat; nra. }
  assert (Hc0 : 0 <= r * r * r) by (repeat apply Rmult_le_pos; assumption).
  unfold lens_of, Rdiv. rewrite !Rmult_1_l.
  apply Rinv_le_contravar; lra.
Qed.
End MeshReal.

Section MeshFloat.
Local Open Scope float_scope.

Lemma opp_involutive (x : float) : - - x = x.
Proof.
  apply Prim2SF_inj. rewrite !opp_spec.
  destruct (Prim2SF x) as [ s | s | | s m e ]; cbn [SFopp];
    now rewrite ?negb_involutive.
Qed.

Lemma f4_round_opp (x : spec_float) : f4_round (SFopp x) = SFopp (f4_round x).
Proof.
  destruct x as [ s | s | | s m e ]; try reflexivity.
  cbn [SFopp f4_round]. unfold binary_round.
  destruct (shl_align m e (fexp 24 128 (Z.pos (digits2_pos m) + e))) as [ mz ez ].
  unfold binary_round_aux.
  destruct (shr_fexp 24 128 (Z.pos mz) ez loc_Exact) as [ mrs1 e1 ].
  destruct (shr_fexp 24 128 (round_nearest_even (shr_m mrs1) (loc_of_shr_record mrs1))
                     e1 loc_Exact) as [ mrs2 e2 ].
  destruct (shr_m mrs2) as [ | q | q ]; try reflexivity.
  destruct (e2 <=? 128 - 24)%Z; reflexivity.
Qed.

Lemma SF2Prim_opp (x : spec_float) : SF2Prim (SFopp x) = - SF2Prim x.
Proof.
  destruct x as [ [ | ] | [ | ] | | [ | ] m e ]; try reflexivity.
  cbn [SFopp SF2Prim negb]. now rewrite opp_involutive.
Qed.

(** Negation commutes with the conversion to float32. *)
Lemma astype_f4_opp (x : float) : astype_f4 (- x) = - astype_f4 x.
Proof.
  unfold astype_f4. now rewrite opp_spec, f4_round_opp, SF2Prim_opp.
Qed.

Lemma sphere_vertices_square (radius : float) :
  read_3f (sphere_vertices radius)
  = [ mk3 (- astype_f4 radius) (- astype_f4 radius) 0;
      mk3 (astype_f4 radius) (- astype_f4 radius) 0;
      mk3 (astype_f4 radius) (astype_f4 radius) 0;
      mk3 (- astype_f4 radius) (astype_f4 radius) 0 ].
Proof.
  unfold sphere_vertices. cbn [map read_3f].
  rewrite !astype_f4_opp.
  replace (astype_f4 0.0) with 0 by (vm_compute; reflexivity).
  reflexivity.
Qed.

Lemma sphere_colors_read (color : list float) :
  List.length color = 4%nat ->
  read_4f (sphere_colors color)
  = [ map astype_f4 color; map astype_f4 color;
      map astype_f4 color; map astype_f4 color ].
Proof.
  intros Hc.
  destruct color as [ | a [ | b [ | c [ | d [ | e rest ] ] ] ] ]; try discriminate Hc.
  reflexivity.
Qed.
End MeshFloat.

(** X11: [create_sphere] builds a flat square, not a sphere, in float32.
    Read as ['3f'] its vertex buffer holds four vertices with z = 0 and
    with x and y equal to plus or minus the float32 rounding of the
    radius, which is the radius itself for the radii 1.0 and 2.0 the
    program passes.  Its colour buffer holds the float32 roundings of the
    colour four times: read as ['4f'] every vertex gets the rounded colour
    when the colour has four components, so the star's (1, 1, 0.7, 1) is
    stored as (1, 1, 0.699999988079071, 1) and the black hole's
    (0, 0, 0, 1) as it is; a colour of three components gives three
    entries with the channels rotated. *)
Theorem create_sphere_is_flat_square :
  (forall radius : float,
      read_3f (sphere_vertices radius)
      = [ mk3 (- astype_f4 radius) (- astype_f4 radius) 0;
          mk3 (astype_f4 radius) (- astype_f4 radius) 0;
          mk3 (astype_f4 radius) (astype_f4 radius) 0;
          mk3 (- astype_f4 radius) (astype_f4 radius) 0 ])%float
  /\ (astype_f4 1 = 1 /\ astype_f4 2 = 2)%float
  /\ (forall color : list float,
        List.length (sphere_colors color) = (4 * List.length color)%nat)
  /\ (forall r g b : float,
        read_4f (sphere_colors [ r; g; b ])
        = [ [ astype_f4 r; astype_f4 g; astype_f4 b; astype_f4 r ];
            [ astype_f4 g; astype_f4 b; astype_f4 r; astype_f4 g ];
            [ astype_f4 b; astype_f4 r; astype_f4 g; astype_f4 b ] ])
  /\ (map astype_f4 [ 1; 1; 0.7; 1 ] = [ 1; 1; 0.69999998807907104; 1 ]
      /\ map astype_f4 [ 0; 0; 0; 1 ] = [ 0; 0; 0; 1 ])%float
  /\ (forall color : list float,
        List.length color = 4%nat ->
        read_4f (sphere_colors color)
        = [ map astype_f4 color; map astype_f4 color;
            map astype_f4 color; map astype_f4 color ]).
Proof.
  split; [ exact sphere_vertices_square | ].
  split; [ split; vm_compute; reflexivity | ].
  split.
  - intros color. unfold sphere_colors. rewrite length_map.
    cbn [repeat List.concat]. rewrite !length_app. cbn [List.length]. lia.
  - split; [ reflexivity | ].
    split; [ split; vm_compute; reflexivity | ].
    exact sphere_colors_read.
Qed.

(** The colour of the star, line 166. *)
Lemma create_sphere_is_flat_square_witness :
  List.length [ 1; 1; 0.7; 1 ]%float = 4%nat
  /\ read_4f (sphere_colors [ 1; 1; 0.7; 1 ]%float)
     = [ map astype_f4 [ 1; 1; 0.7; 1 ]%float; map astype_f4 [ 1; 1; 0.7; 1 ]%float;
         map astype_f4 [ 1; 1; 0.7; 1 ]%float; map astype_f4 [ 1; 1; 0.7; 1 ]%float ].
Proof.
  split; [ reflexivity | ].
  exact (proj2 (proj2 (proj2 (proj2 (proj2 create_sphere_is_flat_square))))
               [ 1; 1; 0.7; 1 ]%float eq_refl).
Defined.

(** X12: in exact arithmetic the background's vertex shader maps the quad
    of [draw_background] onto the unit square of texture coordinates: its
    four corners go to (0,0), (1,0), (1,1), (0,1), its centre to
    (0.5, 0.5), and every point of the quad to a point of the square. *)
Theorem background_uv_unit_square :
  (forall x y : R,
      (-40 <= x <= 40)%R -> (-40 <= y <= 40)%R ->
      (0 <= fst (bg_uv x y) <= 1)%R /\ (0 <= snd (bg_uv x y) <= 1)%R)
  /\ map (fun v => bg_uv (vx v) (vy v)) (read_3f background_vertices)
     = [ (0, 0); (1, 0); (1, 1); (0, 1) ]%R
  /\ bg_uv 0 0 = (0.5, 0.5)%R.
Proof.
  split; [ | split ].
  - intros x y Hx Hy. unfold bg_uv; cbn [fst snd]. lra.
  - unfold background_vertices, bg_uv. cbn [read_3f map vx vy].
    repeat (f_equal; try lra).
  - unfold bg_uv. f_equal; lra.
Qed.

(** The corner (40, -40) of the quad. *)
Lemma background_uv_unit_square_witness :
  (-40 <= 40 <= 40)%R /\ (-40 <= -40 <= 40)%R
  /\ (0 <= fst (bg_uv 40 (-40)) <= 1)%R /\ (0 <= snd (bg_uv 40 (-40)) <= 1)%R.
Proof.
  assert (Hx : (-40 <= 40 <= 40)%R) by lra.
  assert (Hy : (-40 <= -40 <= 40)%R) by lra.
  split; [ exact Hx | ].
  split; [ exact Hy | ].
  exact (proj1 background_uv_unit_square 40%R (-40)%R Hx Hy).
Defined.

(** X13: in exact arithmetic the background's fragment shader darkens
    towards the centre.  The lens factor lies in (0, 1] and decreases with
    the distance from the centre of the texture; the colour is the ambient
    colour (0.1, 0.1, 0.15) scaled by one minus that factor, opaque, black
    exactly at the centre; and over the whole quad the factor stays at or
    above 1/11, so no pixel reaches the ambient colour. *)
Theorem background_darkens_to_centre :
  (forall r : R, (0 <= r)%R -> (0 < lens_of r <= 1)%R)
  /\ (forall r1 r2 : R, (0 <= r1 <= r2)%R -> (lens_of r2 <= lens_of r1)%R)
  /\ (forall u v : R,
        red (bg_fragment u v) = (0.1 * (1 - lens_of (bg_radius u v)))%R
        /\ green (bg_fragment u v) = (0.1 * (1 - lens_of (bg_radius u v)))%R
        /\ blue (bg_fragment u v) = (0.15 * (1 - lens_of (bg_radius u v)))%R
        /\ alpha (bg_fragment u v) = 1%R
        /\ (0 <= red (bg_fragment u v) < 0.1)%R
        /\ (0 <= blue (bg_fragment u v) < 0.15)%R)
  /\ bg_fragment 0.5 0.5 = (0, 0, 0, 1)%R
  /\ (forall x y : R,
        (-40 <= x <= 40)%R -> (-40 <= y <= 40)%R ->
        (red (bg_fragment (fst (bg_uv x y)) (snd (bg_uv x y))) <= 0.1 * (10 / 11))%R
        /\ (blue (bg_fragment (fst (bg_uv x y)) (snd (bg_uv x y))) <= 0.15 * (10 / 11))%R).
Proof.
  split; [ exact lens_of_range | ].
  split; [ exact lens_of_decreasing | ].
  split; [ | split ].
  - intros u v.
    destruct (lens_of_range (bg_radius_nonneg u v)) as [ Hl0 Hl1 ].
    unfold bg_fragment, red, green, blue, alpha, glsl_mix; cbn [fst snd].
    repeat split; lra.
  - unfold bg_fragment, glsl_mix.
    assert (E : bg_radius 0.5 0.5 = 0%R).
    { unfold bg_radius.
      replace ((0.5 - 0.5) * (0.5 - 0.5) + (0.5 - 0.5) * (0.5 - 0.5))%R with 0%R by lra.
      apply sqrt_0. }
    rewrite E.
    assert (L : lens_of 0 = 1%R) by (unfold lens_of; field).
    rewrite L. repeat (f_equal; try lra).
  - intros x y Hx Hy.
    assert (Hu : (0 <= fst (bg_uv x y) <= 1)%R) by (unfold bg_uv; cbn [fst]; lra).
    assert (Hv : (0 <= snd (bg_uv x y) <= 1)%R) by (unfold bg_uv; cbn [snd]; lra).
    pose proof (lens_on_unit_square Hu Hv) as Hl.
    unfold bg_fragment, red, blue, glsl_mix; cbn [fst snd].
    split; lra.
Qed.

(** The centre of the quad. *)
Lemma background_darkens_to_centre_witness :
  (0 <= 0)%R /\ (0 < lens_of 0 <= 1)%R
  /\ (-40 <= 0 <= 40)%R
  /\ (red (bg_fragment (fst (bg_uv 0 0)) (snd (bg_uv 0 0))) <= 0.1 * (10 / 11))%R.
Proof.
  assert (H0 : (0 <= 0)%R) by lra.
  assert (Hx : (-40 <= 0 <= 40)%R) by lra.
  split; [ exact H0 | ].
  split; [ exact (proj1 background_darkens_to_centre 0%R H0) | ].
  split; [ exact Hx | ].
  exact (proj1 (proj2 (proj2 (proj2 (proj2 background_darkens_to_centre))) 0%R 0%R Hx Hx)).
Defined.
